(** * Slack/Freshdesk ticketing: the wizard page engine, proxy values and
    ticket assembly, as a shallow embedding of [logic/mapping.py],
    [logic/branching.py], [logic/ticket.py] and [logic/wizard.py]. *)

From Stdlib Require Import ZArith List String Ascii Bool Lia Sorted Permutation.
Import ListNotations.
Open Scope Z_scope.

(* ------------------------------------------------------------------ *)
(** ** Python strings *)

(** A Python [str] is a sequence of Unicode code points. *)
Definition pystr := list Z.

(** Literal helper: an ASCII Rocq string as a Python string. *)
Definition s (x : string) : pystr :=
  map (fun a => Z.of_nat (nat_of_ascii a)) (list_ascii_of_string x).

Fixpoint pystr_eqb (a b : pystr) : bool :=
  match a, b with
  | [], [] => true
  | x :: a', y :: b' => Z.eqb x y && pystr_eqb a' b'
  | _, _ => false
  end.

(** [s.startswith(p)] *)
Fixpoint startswith (x p : pystr) : bool :=
  match p, x with
  | [], _ => true
  | c :: p', d :: x' => Z.eqb c d && startswith x' p'
  | _ :: _, [] => false
  end.

(** Membership of a string in a Python list or set of strings. *)
Definition str_mem (x : pystr) (l : list pystr) : bool :=
  existsb (pystr_eqb x) l.

Definition z_mem (x : Z) (l : list Z) : bool := existsb (Z.eqb x) l.

(** Truthiness of a Python string. *)
Definition str_truthy (x : pystr) : bool :=
  match x with [] => false | _ => true end.

(** [str.encode("utf-8")]: [None] stands for the [UnicodeEncodeError]
    raised on a lone surrogate. *)
Definition utf8_char (c : Z) : option (list Z) :=
  if c <? 0x80 then Some [c]
  else if c <? 0x800 then
    Some [Z.lor 0xC0 (Z.shiftr c 6); Z.lor 0x80 (Z.land c 0x3F)]
  else if (0xD800 <=? c) && (c <=? 0xDFFF) then None
  else if c <? 0x10000 then
    Some [Z.lor 0xE0 (Z.shiftr c 12);
          Z.lor 0x80 (Z.land (Z.shiftr c 6) 0x3F);
          Z.lor 0x80 (Z.land c 0x3F)]
  else
    Some [Z.lor 0xF0 (Z.shiftr c 18);
          Z.lor 0x80 (Z.land (Z.shiftr c 12) 0x3F);
          Z.lor 0x80 (Z.land (Z.shiftr c 6) 0x3F);
          Z.lor 0x80 (Z.land c 0x3F)].

Fixpoint utf8_encode (x : pystr) : option (list Z) :=
  match x with
  | [] => Some []
  | c :: x' =>
      match utf8_char c, utf8_encode x' with
      | Some b, Some bs => Some (b ++ bs)
      | _, _ => None
      end
  end.

(* ------------------------------------------------------------------ *)
(** ** [hashlib.sha1(...).hexdigest()] *)

Module SHA1.

Definition mask32 (x : Z) : Z := Z.land x 0xFFFFFFFF.
Definition add32 (x y : Z) : Z := mask32 (x + y).
Definition rotl (n x : Z) : Z :=
  mask32 (Z.lor (Z.shiftl x n) (Z.shiftr x (32 - n))).

(** Padding: 0x80, zeros up to 56 mod 64, then the bit length on 8 bytes. *)
Definition be_bytes (n : nat) (x : Z) : list Z :=
  map (fun i => Z.land (Z.shiftr x (8 * Z.of_nat (n - 1 - i)%nat)) 0xFF) (seq 0 n).

Definition pad (msg : list Z) : list Z :=
  let l := List.length msg in
  let zeros := ((119 - (l mod 64)) mod 64)%nat in
  msg ++ [0x80] ++ repeat 0 zeros ++ be_bytes 8 (8 * Z.of_nat l).

Fixpoint words (bs : list Z) : list Z :=
  match bs with
  | a :: b :: c :: d :: rest =>
      Z.lor (Z.shiftl a 24) (Z.lor (Z.shiftl b 16) (Z.lor (Z.shiftl c 8) d))
        :: words rest
  | _ => []
  end.

(** Message schedule: 16 words extended to 80. *)
Fixpoint extend (k : nat) (w : list Z) : list Z :=
  match k with
  | O => w
  | S k' =>
      let n := List.length w in
      let x := rotl 1 (Z.lxor (nth (n - 3)%nat w 0)
                        (Z.lxor (nth (n - 8)%nat w 0)
                          (Z.lxor (nth (n - 14)%nat w 0) (nth (n - 16)%nat w 0)))) in
      extend k' (w ++ [x])
  end.

Definition round_fk (i : nat) (b c d : Z) : Z * Z :=
  if (i <? 20)%nat then
    (Z.lor (Z.land b c) (Z.land (Z.lxor b 0xFFFFFFFF) d), 0x5A827999)
  else if (i <? 40)%nat then (Z.lxor b (Z.lxor c d), 0x6ED9EBA1)
  else if (i <? 60)%nat then
    (Z.lor (Z.land b c) (Z.lor (Z.land b d) (Z.land c d)), 0x8F1BBCDC)
  else (Z.lxor b (Z.lxor c d), 0xCA62C1D6).

Definition state := (Z * Z * Z * Z * Z)%type.

Fixpoint rounds (i : nat) (ws : list Z) (st : state) : state :=
  match ws with
  | [] => st
  | w :: ws' =>
      let '(a, b, c, d, e) := st in
      let '(f, k) := round_fk i b c d in
      let t := add32 (add32 (add32 (add32 (rotl 5 a) f) e) k) w in
      rounds (S i) ws' (t, a, rotl 30 b, c, d)
  end.

Definition compress (h : state) (block : list Z) : state :=
  let w := extend 64 (words block) in
  let '(a, b, c, d, e) := rounds 0 w h in
  let '(h0, h1, h2, h3, h4) := h in
  (add32 h0 a, add32 h1 b, add32 h2 c, add32 h3 d, add32 h4 e).

Fixpoint blocks (fuel : nat) (bs : list Z) : list (list Z) :=
  match fuel with
  | O => []
  | S f =>
      match bs with
      | [] => []
      | _ => firstn 64 bs :: blocks f (skipn 64 bs)
      end
  end.

Definition h_init : state :=
  (0x67452301, 0xEFCDAB89, 0x98BADCFE, 0x10325476, 0xC3D2E1F0).

Definition hex_digit (n : Z) : Z := if n <? 10 then 48 + n else 87 + n.

Definition hex32 (x : Z) : pystr :=
  map (fun i => hex_digit (Z.land (Z.shiftr x (4 * (7 - Z.of_nat i))) 0xF))
      (seq 0 8).

Definition digest (msg : list Z) : state :=
  let p := pad msg in
  fold_left compress (blocks (List.length p) p) h_init.

(** Lower-case hexadecimal digest of a byte string. *)
Definition hexdigest (msg : list Z) : pystr :=
  let '(h0, h1, h2, h3, h4) := digest msg in
  hex32 h0 ++ hex32 h1 ++ hex32 h2 ++ hex32 h3 ++ hex32 h4.

End SHA1.

(* ------------------------------------------------------------------ *)
(** ** Field metadata ([logic/mapping.py]) *)

(** An item of a choice list: a dict (each key absent or a string) or a
    scalar. *)
Inductive choice_item :=
| CIDict (value name id label : option pystr)
| CIScalar (x : pystr).

(** The three raw shapes of a choice collection. *)
Inductive choices :=
| CDict (kv : list (pystr * pystr))
| CList (items : list choice_item)
| CScalar (x : pystr).

Definition choices_truthy (c : choices) : bool :=
  match c with
  | CDict kv => negb (List.length kv =? 0)%nat
  | CList l => negb (List.length l =? 0)%nat
  | CScalar x => str_truthy x
  end.

Definition get_or {A} (o : option A) (d : A) : A :=
  match o with Some x => x | None => d end.

(** [iter_choice_items] *)
Definition iter_choice_items (c : option choices) : list (pystr * pystr) :=
  match c with
  | None => []
  | Some c =>
      if negb (choices_truthy c) then [] else
      match c with
      | CDict kv => kv
      | CList items =>
          map (fun it =>
                 match it with
                 | CIDict v n i l =>
                     let val := match v with
                                | Some v => v
                                | None => match n with
                                          | Some n => n
                                          | None => get_or i []
                                          end
                                end in
                     let lbl := match l with
                                | Some l => l
                                | None => get_or n val
                                end in
                     (val, lbl)
                 | CIScalar x => (x, x)
                 end) items
      | CScalar x => [(x, x)]
      end
  end.

(** A [customers_properties] / [portal_properties] dict. *)
Record props := {
  p_choices : option choices;
  p_option_values : option choices;
  p_values : option choices;
}.

Definition props_empty : props := {| p_choices := None; p_option_values := None;
                                     p_values := None |}.

Definition props_truthy (p : props) : bool :=
  match p_choices p, p_option_values p, p_values p with
  | None, None, None => false
  | _, _, _ => true
  end.

(** [dict.update]: keys of [q] overwrite those of [p]. *)
Definition props_update (p q : props) : props :=
  {| p_choices := match p_choices q with Some c => Some c | None => p_choices p end;
     p_option_values := match p_option_values q with
                        | Some c => Some c | None => p_option_values p end;
     p_values := match p_values q with Some c => Some c | None => p_values p end |}.

(** An entry of [dependent_fields]. *)
Record dep_field := {
  dep_id : option Z;          (* [int(dep["id"])], [None] when it fails *)
  dep_name : option pystr;
  dep_level : option Z;
}.

(** A Freshdesk ticket field.  Absent keys are [None]; the display
    labels are not modelled (no claim reads them). *)
Record field := {
  fld_id : Z;
  fld_name : option pystr;
  fld_type : option pystr;
  fld_required_for_customers : bool;
  fld_required_for_agents : bool;
  fld_displayed_to_customers : bool;
  fld_customers_can_edit : option bool;
  fld_dependent_fields : list dep_field;
  fld_section_mappings : list (option Z);  (* [int(m["section_id"])] *)
  fld_cp : option props;                   (* customers_properties *)
  fld_choices : option choices;
  fld_option_values : option choices;
  fld_values : option choices;
  fld_dropdown_choices : option choices;
  fld_label_choices : option choices;
  fld_pp : option props;                   (* portal_properties *)
}.

Definition truthy_choices (o : option choices) : option choices :=
  match o with
  | Some c => if choices_truthy c then Some c else None
  | None => None
  end.

Definition first_some {A} (l : list (option A)) : option A :=
  fold_right (fun o acc => match o with Some x => Some x | None => acc end) None l.

(** [get_field_choices] *)
Definition get_field_choices (f : field) : option choices :=
  let cp := get_or (fld_cp f) props_empty in
  let pp := get_or (fld_pp f) props_empty in
  first_some (map truthy_choices
    [p_choices cp; p_option_values cp; p_values cp;
     fld_choices f; fld_option_values f; fld_values f;
     fld_dropdown_choices f; fld_label_choices f;
     p_choices pp; p_option_values pp; p_values pp]).

Definition TEXT_LIKE : list pystr :=
  map s ["text"; "email"; "phone_number"; "short_text"; "long_text";
         "custom_text"; "custom_url"; "url"]%string.
Definition NUMBER_LIKE : list pystr :=
  map s ["custom_number"; "custom_decimal"; "number"; "decimal"]%string.
Definition PARAGRAPH_LIKE : list pystr := map s ["custom_paragraph"; "textarea"]%string.
Definition DATE_LIKE : list pystr := map s ["custom_date"; "date"]%string.
Definition CHECKBOX_LIKE : list pystr :=
  map s ["custom_checkbox"; "checkbox"; "boolean"]%string.
Definition DROPDOWN_LIKE : list pystr :=
  map s ["custom_dropdown"; "dropdown"; "default_ticket_type"]%string.
Definition NESTED : list pystr := [s "nested_field"].
Definition SKIP_ALWAYS : list pystr :=
  map s ["default_requester"; "default_source"; "default_status";
         "default_priority"; "default_group"; "default_agent";
         "default_product"; "default_company"]%string.

(** [ftype in S] for a possibly absent type. *)
Definition type_in (t : option pystr) (l : list pystr) : bool :=
  match t with Some t => str_mem t l | None => false end.

Definition type_is (t : option pystr) (x : string) : bool :=
  match t with Some t => pystr_eqb t (s x) | None => false end.

Definition is_some {A} (o : option A) : bool :=
  match o with Some _ => true | None => false end.

(** [ensure_choices], given the field-detail collaborator
    [fetch_field_detail] (which returns [None] on any failure). *)
Definition ensure_choices (fetch_field_detail : Z -> option field) (f : field) : field :=
  if type_in (fld_type f) DROPDOWN_LIKE && negb (is_some (get_field_choices f)) then
    match fetch_field_detail (fld_id f) with
    | None => f
    | Some d =>
        let pick (fk : option choices) (dk : option choices) :=
          match truthy_choices dk with Some c => Some c | None => fk end in
        {| fld_id := fld_id f; fld_name := fld_name f; fld_type := fld_type f;
           fld_required_for_customers := fld_required_for_customers f;
           fld_required_for_agents := fld_required_for_agents f;
           fld_displayed_to_customers := fld_displayed_to_customers f;
           fld_customers_can_edit := fld_customers_can_edit f;
           fld_dependent_fields := fld_dependent_fields f;
           fld_section_mappings := fld_section_mappings f;
           fld_cp := match fld_cp d with
                     | Some p => if props_truthy p
                                 then Some (props_update (get_or (fld_cp f) props_empty) p)
                                 else fld_cp f
                     | None => fld_cp f
                     end;
           fld_choices := pick (fld_choices f) (fld_choices d);
           fld_option_values := pick (fld_option_values f) (fld_option_values d);
           fld_values := pick (fld_values f) (fld_values d);
           fld_dropdown_choices := pick (fld_dropdown_choices f) (fld_dropdown_choices d);
           fld_label_choices := pick (fld_label_choices f) (fld_label_choices d);
           fld_pp := match fld_pp d with
                     | Some p => if props_truthy p then Some p else fld_pp f
                     | None => fld_pp f
                     end |}
    end
  else f.

(** [proxy_value_if_needed]: [len] counts code points; [None] marks the
    [UnicodeEncodeError] of [encode("utf-8")] (lone surrogates only). *)
Definition proxy_value_if_needed (raw : pystr) : option pystr :=
  if (List.length raw <=? 150)%nat then Some raw
  else match utf8_encode raw with
       | Some b => Some (s "hash:" ++ SHA1.hexdigest b)
       | None => None
       end.

(** [str.isspace] (also the [\s] of [re] on [str] patterns). *)
Definition py_isspace (c : Z) : bool :=
  ((9 <=? c) && (c <=? 13)) || ((28 <=? c) && (c <=? 32)) || (c =? 133) || (c =? 160)
  || (c =? 5760) || ((8192 <=? c) && (c <=? 8202)) || (c =? 8232) || (c =? 8233)
  || (c =? 8239) || (c =? 8287) || (c =? 12288).

Fixpoint lstrip (x : pystr) : pystr :=
  match x with
  | c :: r => if py_isspace c then lstrip r else x
  | [] => []
  end.

(** [str.strip()] *)
Definition py_strip (x : pystr) : pystr := rev (lstrip (rev (lstrip x))).

(** A Slack option: its visible text and its value. *)
Record slack_option := {
  opt_text : pystr;
  opt_value : pystr;
}.

(** The loop of [choices_to_slack_options] over the choice items: [None]
    is the [UnicodeEncodeError] that [proxy_value_if_needed] raises out of
    the call. *)
Fixpoint options_of_items (items : list (pystr * pystr)) : option (list slack_option) :=
  match items with
  | [] => Some []
  | (val, lbl) :: rest =>
      let visible := if str_truthy (py_strip val) then val else lbl in
      match proxy_value_if_needed val with
      | None => None
      | Some v =>
          match options_of_items rest with
          | None => None
          | Some opts => Some ({| opt_text := firstn 75 visible; opt_value := v |} :: opts)
          end
      end
  end.

(** [choices_to_slack_options] *)
Definition choices_to_slack_options (c : option choices) : option (list slack_option) :=
  options_of_items (iter_choice_items c).

(** Slack input elements and blocks, as far as the code distinguishes them. *)
Inductive elem :=
| EPlainText
| EPlainTextMultiline
| EDatePicker
| ECheckboxes
| EStaticSelect (options : list slack_option).

Record block := {
  block_id : option pystr;
  block_elem : elem;
  block_optional : bool;
}.

(** What [to_slack_block] returns: [None], one block or a list of blocks. *)
Inductive mapped :=
| MNone
| MOne (b : block)
| MMany (bs : list block).

(** [sorted(dep, key=lambda d: d.get("level", 99))], a stable sort. *)
Definition dep_level_key (d : dep_field) : Z := get_or (dep_level d) 99.

Fixpoint insert_by_level (d : dep_field) (l : list dep_field) : list dep_field :=
  match l with
  | [] => [d]
  | x :: l' => if dep_level_key d <? dep_level_key x then d :: l
               else x :: insert_by_level d l'
  end.

Definition sort_by_level (l : list dep_field) : list dep_field :=
  fold_left (fun acc d => insert_by_level d acc) l [].

(** [to_slack_block]: [None] is the [UnicodeEncodeError] raised by
    [choices_to_slack_options] for a dropdown. *)
Definition to_slack_block (f : field) : option mapped :=
  let t := fld_type f in
  let required := fld_required_for_customers f in
  let displayed := fld_displayed_to_customers f in
  let customers_can_edit := get_or (fld_customers_can_edit f) true in
  if type_in t SKIP_ALWAYS then Some MNone
  else if negb displayed && negb required then Some MNone
  else if negb customers_can_edit && negb required then Some MNone
  else if type_is t "default_subject" then
    Some (MOne {| block_id := Some (s "subject"); block_elem := EPlainText;
                  block_optional := false |})
  else if type_is t "default_description" then
    Some (MOne {| block_id := Some (s "description"); block_elem := EPlainTextMultiline;
                  block_optional := false |})
  else
    let input e := Some (MOne {| block_id := fld_name f; block_elem := e;
                                 block_optional := negb required |}) in
    if type_in t TEXT_LIKE then input EPlainText
    else if type_in t NUMBER_LIKE then input EPlainText
    else if type_in t PARAGRAPH_LIKE then input EPlainTextMultiline
    else if type_in t DATE_LIKE then input EDatePicker
    else if type_in t CHECKBOX_LIKE then input ECheckboxes
    else if type_in t DROPDOWN_LIKE then
      match choices_to_slack_options (get_field_choices f) with
      | None => None
      | Some [] => input EPlainText
      | Some options => input (EStaticSelect options)
      end
    else if type_in t NESTED then
      Some (MMany (map (fun d => {| block_id := dep_name d; block_elem := EPlainText;
                                    block_optional := negb required |})
                       (sort_by_level (fld_dependent_fields f))))
    else Some MNone.

(** [normalize_blocks] *)
Definition normalize_blocks (m : mapped) : list block :=
  match m with
  | MNone => []
  | MOne b => [b]
  | MMany bs => bs
  end.

(* ------------------------------------------------------------------ *)
(** ** Answers ([extract_input], [selected_value_for]) *)

(** The [data] of one Slack state entry, by its declared type. *)
Inductive input_data :=
| PlainTextInput (value : option pystr)
| StaticSelectInput (selected_value : option pystr)
| DatePickerInput (selected_date : option pystr)
| CheckboxesInput (selected_options : list pystr)
| OtherInput.

(** A state entry [{action_id: data}]. *)
Definition entry := list (pystr * input_data).

(** An answer set: block id to entry, a Python dict in insertion order. *)
Definition answers := list (pystr * entry).

(** The values [extract_input] can return. *)
Inductive pyval :=
| VStr (x : pystr)
| VBool (b : bool).

Definition pyval_truthy (v : pyval) : bool :=
  match v with VStr x => str_truthy x | VBool b => b end.

(** [str(v)] *)
Definition py_str (v : pyval) : pystr :=
  match v with
  | VStr x => x
  | VBool true => s "True"
  | VBool false => s "False"
  end.

(** [extract_input] *)
Definition extract_input (e : entry) : option pyval :=
  match e with
  | [] => None
  | (_, d) :: _ =>
      match d with
      | PlainTextInput v => option_map VStr v
      | StaticSelectInput v => option_map VStr v
      | DatePickerInput v => option_map VStr v
      | CheckboxesInput l => Some (VBool (negb (List.length l =? 0)%nat))
      | OtherInput => None
      end
  end.

(** [d.get(k)] on a dict held as an association list. *)
Fixpoint lookup {A} (k : pystr) (d : list (pystr * A)) : option A :=
  match d with
  | [] => None
  | (k', v) :: d' => if pystr_eqb k k' then Some v else lookup k d'
  end.

Definition opt_str_eqb (a b : option pystr) : bool :=
  match a, b with
  | Some x, Some y => pystr_eqb x y
  | None, None => true
  | _, _ => false
  end.

(* ------------------------------------------------------------------ *)
(** ** External collaborators and outcomes *)

(** Exceptions the modelled code can raise. *)
Inductive exn :=
| HTTPError            (* [raise_for_status] in [fd_get] *)
| UnicodeEncodeError
| RuntimeError (msg : string).

(** [log.warning] lines. *)
Inductive warning :=
| WarnFieldNotFound (name : option pystr)
| WarnNoChoiceMatched (name : option pystr)
| WarnNoFormType (form_id : Z).

(** A computation returns a value with the warnings it logged, or raises. *)
Inductive outcome (A : Type) :=
| Ok (a : A) (logs : list warning)
| Raise (e : exn).
Arguments Ok {A} a logs.
Arguments Raise {A} e.

(** Conditional section as returned by [get_sections_cached]. *)
Inductive raw_id :=
| RInt (z : Z)
| RDict (id : option Z).

Record csection := {
  sec_id : option Z;              (* [int(sec["id"])], [None] when it fails *)
  sec_fields : list raw_id;
  sec_choices : option choices;
  sec_values : option choices;
  sec_option_values : option choices;
}.

(** [/api/v2/ticket-forms/{id}] *)
Record form_detail := {
  fdt_name : option pystr;
  fdt_fields : list raw_id;
  fdt_section_ids : list (option Z);
}.

(** The Freshdesk side, as the code sees it.  [None] from
    [get_form_detail] or [admin_ticket_fields] is the exception raised by
    [fd_get]; [get_sections_cached] and [fetch_field_detail] catch their
    failures themselves. *)
Record env := {
  get_form_detail : Z -> option form_detail;
  get_sections_cached : Z -> list csection;
  fetch_field_detail : Z -> option field;
  admin_ticket_fields : option (list field);
}.

(** [normalize_id_list] *)
Definition normalize_id_list (raw : list raw_id) : list Z :=
  flat_map (fun r => match r with
                     | RInt z => [z]
                     | RDict (Some z) => [z]
                     | RDict None => []
                     end) raw.

(** [activator_values] *)
Definition activator_values (sec : csection) : list pystr :=
  map fst (iter_choice_items
             (first_some (map truthy_choices
                [sec_choices sec; sec_values sec; sec_option_values sec]))).

(* ------------------------------------------------------------------ *)
(** ** [resolve_proxy_value] ([logic/ticket.py]) *)

Definition HASH_PREFIX : pystr := s "hash:".

(** The loop over the choice items, comparing digests. *)
Fixpoint match_digest (name : option pystr) (val want : pystr)
         (items : list (pystr * pystr)) : outcome pystr :=
  match items with
  | [] => Ok val [WarnNoChoiceMatched name]
  | (raw, _) :: rest =>
      match utf8_encode raw with
      | None => Raise UnicodeEncodeError
      | Some b => if pystr_eqb (SHA1.hexdigest b) want then Ok raw []
                  else match_digest name val want rest
      end
  end.

Definition resolve_proxy_value (E : env) (field_name : option pystr)
           (proxy_or_value : pystr) : outcome pystr :=
  let val := proxy_or_value in
  if negb (startswith val HASH_PREFIX) then Ok val [] else
  match admin_ticket_fields E with
  | None => Raise HTTPError
  | Some fd_fields =>
      match find (fun f => opt_str_eqb (fld_name f) field_name) fd_fields with
      | None => Ok val [WarnFieldNotFound field_name]
      | Some target =>
          let target := ensure_choices (fetch_field_detail E) target in
          let items := iter_choice_items (get_field_choices target) in
          match_digest field_name val (skipn 5 val) items
      end
  end.

(** [selected_value_for]: the exception of the resolver is caught. *)
Definition selected_value_for (E : env) (f : field) (state_values : answers)
  : option pyval :=
  let e := match fld_name f with
           | Some n => get_or (lookup n state_values) []
           | None => []
           end in
  match extract_input e with
  | None => None
  | Some v =>
      if negb (pyval_truthy v) then None else
      match v with
      | VStr x =>
          if startswith x HASH_PREFIX then
            match resolve_proxy_value E (fld_name f) x with
            | Ok r _ => Some (VStr r)
            | Raise _ => Some (VStr x)
            end
          else Some v
      | VBool _ => Some v
      end
  end.

(* ------------------------------------------------------------------ *)
(** ** [compute_pages] ([logic/wizard.py]) *)

(** A page item: a field id, ["core"] or the trailing [None]. *)
Inductive page :=
| FieldPage (fid : Z)
| Core
| Terminal.

(** [by_id = {f["id"]: f for f in all_fields}]: the last field wins. *)
Definition by_id (all_fields : list field) (fid : Z) : option field :=
  fold_left (fun acc f => if Z.eqb (fld_id f) fid then Some f else acc)
            all_fields None.

(** [sid in form_section_ids] *)
Definition in_section_ids (sid : Z) (ids : list (option Z)) : bool :=
  existsb (fun o => match o with Some x => Z.eqb x sid | None => false end) ids.

(** The mutable [pages] list and [visited] set of one traversal. *)
Record wstate := {
  w_pages : list page;
  w_visited : list Z;
}.

Definition visit (fid : Z) (st : wstate) : wstate :=
  {| w_pages := w_pages st; w_visited := fid :: w_visited st |}.

Definition push (fid : Z) (st : wstate) : wstate :=
  {| w_pages := w_pages st ++ [FieldPage fid]; w_visited := w_visited st |}.

(** The result of a traversal step: the boolean it returns with the
    state it leaves, or the exception it raises. *)
Inductive wres :=
| WDone (r : bool) (st : wstate)
| WRaise (e : exn).

(** A Python loop [for x in xs: if not step(x): return False / break];
    an exception leaves the loop. *)
Fixpoint seq_until {A} (step : A -> wstate -> wres) (xs : list A) (st : wstate) : wres :=
  match xs with
  | [] => WDone true st
  | x :: xs' =>
      match step x st with
      | WRaise e => WRaise e
      | WDone true st' => seq_until step xs' st'
      | WDone false st' => WDone false st'
      end
  end.

Section Traversal.

Variable E : env.
Variable all_fields : list field.
Variable state_values : answers.
Variable form_section_ids : list (option Z).

(** The body of the section loop of [add_field_and_children], for the
    stringified answer [sel]; [kids] expands one child. *)
Definition section_step (kids : Z -> wstate -> wres)
           (sel : pystr) (sec : csection) (st : wstate) : wres :=
  match sec_id sec with
  | None => WDone true st
  | Some sid =>
      if negb (in_section_ids sid form_section_ids) then WDone true st
      else if negb (str_mem sel (activator_values sec)) then WDone true st
      else seq_until kids (normalize_id_list (sec_fields sec)) st
  end.

(** [add_field_and_children], with a fuel bound on the recursion depth
    (the fuel is never exhausted, see [add_fuel_enough]); the exception of
    [to_slack_block] propagates. *)
Fixpoint add_field_and_children (fuel : nat) (fid : Z) (st : wstate) : wres :=
  match fuel with
  | O => WRaise (RuntimeError "traversal fuel exhausted")
  | S n =>
      if z_mem fid (w_visited st) then WDone true st else
      let st1 := visit fid st in
      match by_id all_fields fid with
      | None => WDone true st1
      | Some f =>
          if type_is (fld_type f) "default_subject"
             || type_is (fld_type f) "default_description" then WDone true st1
          else match to_slack_block (ensure_choices (fetch_field_detail E) f) with
          | None => WRaise UnicodeEncodeError
          | Some m =>
          match normalize_blocks m with
          | [] => WDone true st1
          | _ =>
              let st2 := push fid st1 in
              if negb (type_is (fld_type f) "nested_field") then
                match selected_value_for E f state_values with
                | None => WDone false st2
                | Some selected =>
                    seq_until (section_step (add_field_and_children n)
                                            (py_str selected))
                              (get_sections_cached E fid) st2
                end
              else WDone true st2
          end
          end
      end
  end.

End Traversal.

(** [dependent_ids] before the conditional children are added. *)
Definition dependent_field_ids (all_fields : list field) : list Z :=
  flat_map (fun f => flat_map (fun d => match dep_id d with
                                        | Some i => [i]
                                        | None => []
                                        end) (fld_dependent_fields f))
           all_fields.

(** [conditional_children] *)
Definition conditional_children (E : env) (fsi : list (option Z))
           (id_order : list Z) : list Z :=
  flat_map (fun fid =>
    flat_map (fun sec =>
      match sec_id sec with
      | None => []
      | Some sid => if in_section_ids sid fsi
                    then normalize_id_list (sec_fields sec) else []
      end) (get_sections_cached E fid)) id_order.

(** [_section_orphan] *)
Definition section_orphan (all_fields : list field) (fsi : list (option Z))
           (fid : Z) : bool :=
  let mappings := match by_id all_fields fid with
                  | Some f => fld_section_mappings f
                  | None => []
                  end in
  match mappings with
  | [] => false
  | _ => negb (existsb (fun m => match m with
                                 | Some sid => in_section_ids sid fsi
                                 | None => false
                                 end) mappings)
  end.

(** [_skip_unlinked_required] *)
Definition skip_unlinked_required (all_fields : list field)
           (dependent_ids : list Z) (fid : Z) : bool :=
  if z_mem fid dependent_ids then false else
  match by_id all_fields fid with
  | None => false
  | Some f =>
      match fld_dependent_fields f with
      | _ :: _ => false
      | [] => fld_required_for_customers f && negb (fld_required_for_agents f)
      end
  end.

(** [form] as picked from [get_ticket_forms_cached]. *)
Record form := {
  form_id : Z;
  form_name : option pystr;
  form_fields : list raw_id;
}.

(** [raw = form_detail.get("fields") or form.get("fields") or []] *)
Definition raw_field_ids (d : form_detail) (fm : form) : list raw_id :=
  match fdt_fields d with
  | _ :: _ => fdt_fields d
  | [] => form_fields fm
  end.

(** The top-level scan order after the three filters. *)
Definition top_level_order (E : env) (d : form_detail) (fm : form)
           (all_fields : list field) : list Z :=
  let id_order := normalize_id_list (raw_field_ids d fm) in
  let fsi := fdt_section_ids d in
  let cond := conditional_children E fsi id_order in
  let dependent_ids := dependent_field_ids all_fields ++ cond in
  let id_order1 := filter (fun fid => negb (z_mem fid cond)
                                      && negb (section_orphan all_fields fsi fid))
                          id_order in
  filter (fun fid => negb (skip_unlinked_required all_fields dependent_ids fid))
         id_order1.

Definition wstate_init : wstate := {| w_pages := []; w_visited := [] |}.

(** The traversal of the top-level order; the fuel is one more than the
    number of fields, which bounds the depth of the recursion. *)
Definition traverse (E : env) (d : form_detail) (fm : form)
           (all_fields : list field) (state_values : answers) : wres :=
  seq_until (add_field_and_children E all_fields state_values (fdt_section_ids d)
               (S (List.length all_fields)))
            (top_level_order E d fm all_fields) wstate_init.

(** [compute_pages]: [Raise] when the form-detail fetch raises, or when
    the traversal does. *)
Definition compute_pages (E : env) (fm : form) (all_fields : list field)
           (state_values : answers) : outcome (list page) :=
  match get_form_detail E (form_id fm) with
  | None => Raise HTTPError
  | Some d =>
      match traverse E d fm all_fields state_values with
      | WDone _ st => Ok (w_pages st ++ [Core; Terminal]) []
      | WRaise e => Raise e
      end
  end.

(* ------------------------------------------------------------------ *)
(** ** [update_wizard] ([logic/wizard.py]) *)

(** A wizard session of [WIZARD_SESSIONS]. *)
Record session := {
  sess_ticket_form_id : Z;
  sess_page : Z;
  sess_values : answers;
}.

Definition sessions := list (pystr * session).

(** [{**a, **b}]: the keys of [a] in order, overwritten by [b], then the
    new keys of [b]. *)
Definition dict_merge {A} (a b : list (pystr * A)) : list (pystr * A) :=
  map (fun kv => (fst kv, get_or (lookup (fst kv) b) (snd kv))) a
  ++ filter (fun kv => negb (is_some (lookup (fst kv) a))) b.

(** [WIZARD_SESSIONS[token] = sess] on an existing token. *)
Definition set_session (token : pystr) (sess : session) (st : sessions) : sessions :=
  map (fun kv => if pystr_eqb (fst kv) token then (fst kv, sess) else kv) st.

Definition with_values (sess : session) (v : answers) : session :=
  {| sess_ticket_form_id := sess_ticket_form_id sess; sess_page := sess_page sess;
     sess_values := v |}.

Definition with_page (sess : session) (p : Z) : session :=
  {| sess_ticket_form_id := sess_ticket_form_id sess; sess_page := p;
     sess_values := sess_values sess |}.

(** [valid_names]: the truthy names of the fields of the integer items. *)
Definition valid_names (fd_fields : list field) (pages : list page) : list pystr :=
  flat_map (fun item =>
    match item with
    | FieldPage fid =>
        match by_id fd_fields fid with
        | Some f => match fld_name f with
                    | Some n => if str_truthy n then [n] else []
                    | None => []
                    end
        | None => []
        end
    | _ => []
    end) pages.

(** [{k: v for k, v in values.items() if k in valid_names}] *)
Definition prune (valid : list pystr) (values : answers) : answers :=
  filter (fun kv => str_mem (fst kv) valid) values.

Inductive nav := NavNext | NavPrev | NavNone.

(** The navigation step on the clamped index [page]. *)
Definition nav_step (E : env) (fd_fields : list field) (values : answers)
           (pages : list page) (page : Z) (n : nav) : Z :=
  let len := Z.of_nat (List.length pages) in
  match n with
  | NavNext =>
      let allow_advance :=
        match nth_error pages (Z.to_nat page) with
        | Some (FieldPage item) =>
            match find (fun f => Z.eqb (fld_id f) item) fd_fields with
            | Some f => is_some (selected_value_for E f values)
            | None => true
            end
        | _ => true
        end in
      if allow_advance then Z.min (page + 1) (len - 1) else page
  | NavPrev => Z.max (page - 1) 0
  | NavNone => page
  end.

(** [update_wizard], returning the session store it leaves behind: every
    exception is caught and logged, and the mutations made before it stay.
    The final [views.update] does not touch the store and is not modelled. *)
Definition update_wizard (E : env) (forms : list form) (fd_fields : list field)
           (store : sessions) (token : pystr) (new_state_values : answers)
           (n : nav) : sessions :=
  match lookup token store with
  | None => store
  | Some sess =>
      let values := dict_merge (sess_values sess) new_state_values in
      let sess1 := with_values sess values in
      let store1 := set_session token sess1 store in
      match find (fun fm => Z.eqb (form_id fm) (sess_ticket_form_id sess)) forms with
      | None => store1
      | Some fm =>
          match compute_pages E fm fd_fields values with
          | Raise _ => store1
          | Ok pages _ =>
              let values2 := prune (valid_names fd_fields pages) values in
              let sess2 := with_values sess1 values2 in
              let store2 := set_session token sess2 store in
              match compute_pages E fm fd_fields values2 with
              | Raise _ => store2
              | Ok pages2 _ =>
                  let len := Z.of_nat (List.length pages2) in
                  let page := Z.max 0 (Z.min (sess_page sess) (len - 1)) in
                  let page' := nav_step E fd_fields values2 pages2 page n in
                  set_session token (with_page sess2 page') store
              end
          end
      end
  end.

(* ------------------------------------------------------------------ *)
(** ** [modal_values_to_fd_ticket] ([logic/ticket.py]) *)

(** [FORM_NAME_TO_TYPE] of [config.py] *)
Definition FORM_NAME_TO_TYPE : list (pystr * pystr) :=
  map (fun kv => (s (fst kv), s (snd kv)))
  [("it_equipment_&_facility_support_form", "IT Equipment Support Form");
   ("IT Equipment & Facility Support Form", "IT Equipment Support Form");
   ("system_access_request", "System Access Request");
   ("System Access Request", "System Access Request");
   ("it_application_assistance_(not_access_related)", "IT Application Assistance Request");
   ("IT Application Assistance (Not Access Related)", "IT Application Assistance Request");
   ("customer_notification_form", "IT Customer Notification Form");
   ("Customer Notification Form", "IT Customer Notification Form");
   ("security_incident", "Security Incident");
   ("Security Incident", "Security Incident")]%string.

(** [FRESHDESK_EMAIL] and [IT_GROUP_ID] of [config.py]; the group id is
    [None] when unset or empty, [Some None] when [int()] fails. *)
Record config := {
  cfg_freshdesk_email : pystr;
  cfg_it_group_id : option (option Z);
}.

Record ticket := {
  t_subject : pyval;
  t_description : pyval;
  t_status : Z;
  t_priority : Z;
  t_email : pystr;
  t_tags : list pystr;
  t_group_id : option Z;
  t_type : option pyval;
  t_custom_fields : option (list (pystr * pyval));
}.

(** The variables of the loop over [values.items()]. *)
Record collected := {
  c_subject : option pyval;
  c_description : option pyval;
  c_type_field : option pyval;
  c_custom_fields : list (pystr * pyval);
}.

Definition TYPE_KEYS : list pystr := map s ["type"; "ticket_type"; "default_ticket_type"]%string.

Fixpoint collect (E : env) (values : answers) (acc : collected) : outcome collected :=
  match values with
  | [] => Ok acc []
  | (block_id, e) :: rest =>
      let val := extract_input e in
      let set_sub v := {| c_subject := v; c_description := c_description acc;
                          c_type_field := c_type_field acc;
                          c_custom_fields := c_custom_fields acc |} in
      let set_desc v := {| c_subject := c_subject acc; c_description := v;
                           c_type_field := c_type_field acc;
                           c_custom_fields := c_custom_fields acc |} in
      let set_type v := {| c_subject := c_subject acc; c_description := c_description acc;
                           c_type_field := v; c_custom_fields := c_custom_fields acc |} in
      let add_custom v := {| c_subject := c_subject acc;
                             c_description := c_description acc;
                             c_type_field := c_type_field acc;
                             c_custom_fields := c_custom_fields acc ++ [(block_id, v)] |} in
      if pystr_eqb block_id (s "subject") then collect E rest (set_sub val)
      else if pystr_eqb block_id (s "description") then collect E rest (set_desc val)
      else if str_mem block_id TYPE_KEYS then collect E rest (set_type val)
      else match val with
           | None => collect E rest acc
           | Some (VStr x) =>
               if pystr_eqb x (s "__noop__") then collect E rest acc
               else if startswith x HASH_PREFIX then
                 match resolve_proxy_value E (Some block_id) x with
                 | Raise ex => Raise ex
                 | Ok r logs =>
                     match collect E rest (add_custom (VStr r)) with
                     | Ok c logs' => Ok c (logs ++ logs')
                     | Raise ex => Raise ex
                     end
                 end
               else collect E rest (add_custom (VStr x))
           | Some v => collect E rest (add_custom v)
           end
  end.

Definition opt_truthy (v : option pyval) : bool :=
  match v with Some v => pyval_truthy v | None => false end.

Definition or_default (v : option pyval) (d : string) : pyval :=
  match v with
  | Some x => if pyval_truthy x then x else VStr (s d)
  | None => VStr (s d)
  end.

Definition modal_values_to_fd_ticket (E : env) (cfg : config) (values : answers)
           (ticket_form_id : option Z) (requester_email : option pystr)
  : outcome ticket :=
  match collect E values {| c_subject := None; c_description := None;
                            c_type_field := None; c_custom_fields := [] |} with
  | Raise ex => Raise ex
  | Ok c logs =>
      let '(type_field, logs2) :=
        if negb (opt_truthy (c_type_field c))
           && (match ticket_form_id with Some i => negb (Z.eqb i 0) | None => false end)
        then
          match get_form_detail E (get_or ticket_form_id 0) with
          | None => (c_type_field c, [WarnNoFormType (get_or ticket_form_id 0)])
          | Some d =>
              match fdt_name d with
              | Some name => (Some (VStr (get_or (lookup name FORM_NAME_TO_TYPE) name)), [])
              | None => (None, [])
              end
          end
        else (c_type_field c, []) in
      Ok {| t_subject := or_default (c_subject c) "New ticket";
            t_description := or_default (c_description c) "(no description)";
            t_status := 2; t_priority := 2;
            t_email := match requester_email with
                       | Some e => if str_truthy e then e else cfg_freshdesk_email cfg
                       | None => cfg_freshdesk_email cfg
                       end;
            t_tags := [s "slack"; s "it-ticket"];
            t_group_id := match cfg_it_group_id cfg with
                          | Some (Some g) => Some g
                          | _ => None
                          end;
            t_type := if opt_truthy type_field then type_field else None;
            t_custom_fields := match c_custom_fields c with
                               | [] => None
                               | cf => Some cf
                               end |}
         (logs ++ logs2)
  end.

(* ------------------------------------------------------------------ *)
(** ** [slug] ([logic/mapping.py]) and [filter_portal_forms] ([logic/forms.py]) *)

(** [x.replace("&", "and")] *)
Definition replace_amp (x : pystr) : pystr :=
  flat_map (fun c => if c =? 38 then s "and" else [c]) x.

(** [re.sub(r"\s+", rep, x)]: each maximal run of whitespace becomes [rep];
    [in_run] tells whether the previous character was whitespace. *)
Fixpoint sub_space_runs (rep : pystr) (in_run : bool) (x : pystr) : pystr :=
  match x with
  | [] => []
  | c :: r =>
      if py_isspace c then
        if in_run then sub_space_runs rep true r else rep ++ sub_space_runs rep true r
      else c :: sub_space_runs rep false r
  end.

(** The characters of [[a-z0-9 ]]. *)
Definition slug_keep (c : Z) : bool :=
  ((97 <=? c) && (c <=? 122)) || ((48 <=? c) && (c <=? 57)) || (c =? 32).

Section Slug.

(** [str.lower()], whose Unicode case mapping (with its special cases, such
    as a final sigma or a dotted capital I giving two characters) is left
    abstract: the properties below hold for every such mapping. *)
Variable py_lower : pystr -> pystr.

(** [slug(s)], for [s] the string or [None]. *)
Definition slug (x : option pystr) : pystr :=
  let s1 := py_lower (py_strip (get_or x [])) in
  let s2 := replace_amp s1 in
  let s3 := sub_space_runs [32] false s2 in
  let s4 := filter slug_keep s3 in
  sub_space_runs [45] false s4.

(** [t in sl] on strings. *)
Fixpoint substr (t sl : pystr) : bool :=
  startswith sl t || match sl with [] => false | _ :: r => substr t r end.

(** The last binding of a key in a list of pairs: a dict comprehension
    [{key(f): f for f in xs}] keeps the last [f] of each key. *)
Definition dict_last {A} (k : pystr) (l : list (pystr * A)) : option A := lookup k (rev l).

(** The fuzzy pass: for each target, the first form of the pool whose slug
    contains it and whose id has not been picked yet. *)
Fixpoint fuzzy_pick (pool : list (pystr * form)) (targets : list pystr) (seen : list Z)
  : list form :=
  match targets with
  | [] => []
  | t :: ts =>
      match find (fun sf => str_truthy t && str_truthy (fst sf) && substr t (fst sf)
                            && negb (z_mem (form_id (snd sf)) seen)) pool with
      | Some (_, f) => f :: fuzzy_pick pool ts (form_id f :: seen)
      | None => fuzzy_pick pool ts seen
      end
  end.

Fixpoint digits_of (fuel : nat) (n : Z) (acc : pystr) : pystr :=
  match fuel with
  | O => acc
  | S k => let acc' := (48 + n mod 10) :: acc in
           if n / 10 =? 0 then acc' else digits_of k (n / 10) acc'
  end.

(** [str(i)] for an integer. *)
Definition z_str (z : Z) : pystr :=
  let fuel := S (Pos.size_nat (Z.to_pos (Z.abs z))) in
  if z <? 0 then 45 :: digits_of fuel (- z) [] else digits_of fuel z [].

(** [filter_portal_forms], for the configured [ALLOWED_FORM_IDS] and
    [PORTAL_FORMS_ORDER]. *)
Definition filter_portal_forms (allowed_form_ids portal_forms_order : list pystr)
           (forms : list form) : list form :=
  match allowed_form_ids with
  | _ :: _ =>
      let by_id := map (fun f => (z_str (form_id f), f)) forms in
      let filtered := flat_map (fun i => match dict_last i by_id with
                                         | Some f => [f] | None => [] end)
                               allowed_form_ids in
      match filtered with [] => forms | _ => filtered end
  | [] =>
      let targets := map (fun n => slug (Some n))
                         (filter (fun n => str_truthy n && str_truthy (py_strip n))
                                 portal_forms_order) in
      let by_slug := map (fun f => (slug (form_name f), f)) forms in
      let exact := flat_map (fun t => match dict_last t by_slug with
                                      | Some f => [f] | None => [] end) targets in
      match exact with
      | _ :: _ => exact
      | [] =>
          let pool := map (fun f => (slug (form_name f), f)) forms in
          match fuzzy_pick pool targets [] with
          | [] => forms
          | fuzzy => fuzzy
          end
      end
  end.

End Slug.

Definition PORTAL_FORMS_ORDER : list pystr :=
  map s ["IT Equipment & Facility Support Form"; "System Access Request";
         "IT Application Assistance (Not Access Related)";
         "Customer Notification Form"; "Security Incident"]%string.

(* ------------------------------------------------------------------ *)
(** ** [get_sections_cached] ([logic/branching.py]) *)

(** [SECTIONS_CACHE], in insertion order. *)
Definition sections_cache := list (Z * list csection).

Fixpoint cache_get (fid : Z) (c : sections_cache) : option (list csection) :=
  match c with
  | [] => None
  | (k, v) :: c' => if Z.eqb fid k then Some v else cache_get fid c'
  end.

(** [get_sections_cached], given what [get_sections(field_id) or []]
    returns at the time of the call. *)
Definition get_sections_cached_st (get_sections : Z -> list csection)
           (cache : sections_cache) (fid : Z) : list csection * sections_cache :=
  match cache_get fid cache with
  | Some secs => (secs, cache)
  | None => let secs := get_sections fid in (secs, cache ++ [(fid, secs)])
  end.

(* ------------------------------------------------------------------ *)
(** ** [build_fields_for_page] and [build_wizard_page_modal] ([logic/wizard.py]) *)

(** A Slack block of a wizard page: an input block, or a [mrkdwn] section
    with its text. *)
Inductive sblock :=
| SInput (b : block)
| SSection (text : pystr).

(** [xs[:n]] *)
Definition py_slice_to {A} (xs : list A) (n : Z) : list A :=
  if 0 <=? n then firstn (Z.to_nat n) xs
  else firstn (Z.to_nat (Z.of_nat (List.length xs) + n)) xs.

(** The blocks of the core fields: [blocks.extend(normalize_blocks(
    to_slack_block(core)))] for each one found, in order. *)
Fixpoint core_blocks (cores : list (option field)) : option (list sblock) :=
  match cores with
  | [] => Some []
  | None :: rest => core_blocks rest
  | Some f :: rest =>
      match to_slack_block f with
      | None => None
      | Some m =>
          match core_blocks rest with
          | None => None
          | Some bs => Some (map SInput (normalize_blocks m) ++ bs)
          end
      end
  end.

(** [build_fields_for_page], for the configured [MAX_BLOCKS]
    ([int(os.getenv("MAX_BLOCKS", "49"))]); [Raise] is the exception of
    [to_slack_block]. *)
Definition build_fields_for_page (E : env) (max_blocks : Z) (all_fields : list field)
           (page_item : page) : outcome (list sblock) :=
  match page_item with
  | Core =>
      let subj := find (fun f => type_is (fld_type f) "default_subject") all_fields in
      let desc := find (fun f => type_is (fld_type f) "default_description") all_fields in
      match core_blocks [subj; desc] with
      | None => Raise UnicodeEncodeError
      | Some blocks =>
          let blocks := match blocks with
                        | [] => [SSection (s "_No core fields._")]
                        | _ => blocks
                        end in
          Ok (py_slice_to blocks max_blocks) []
      end
  | Terminal => Ok [SSection (s "_No more questions._")] []
  | FieldPage fid =>
      match by_id all_fields fid with
      | None => Ok [SSection (s "_Field not found._")] []
      | Some f =>
          match to_slack_block (ensure_choices (fetch_field_detail E) f) with
          | None => Raise UnicodeEncodeError
          | Some m => Ok (py_slice_to (map SInput (normalize_blocks m)) max_blocks) []
          end
      end
  end.

(** A navigation button: its [action_id], its text and whether it has the
    [primary] style; its [value] is the wizard token. *)
Record button := {
  btn_action_id : pystr;
  btn_text : pystr;
  btn_primary : bool;
  btn_value : pystr;
}.

(** The blocks of a wizard modal. *)
Inductive vblock :=
| VSection (text : pystr)          (* the [*Step i of n*] header *)
| VField (b : sblock)
| VActions (block_id : pystr) (elements : list button).

(** The modal view; [v_meta_*] are the keys of [private_metadata] and
    [v_submit] is [Some text] when the view has a submit button. *)
Record view := {
  v_callback_id : pystr;
  v_title : pystr;
  v_close : pystr;
  v_blocks : list vblock;
  v_meta_ticket_form_id : Z;
  v_meta_wizard_token : pystr;
  v_meta_page_index : Z;
  v_submit : option pystr;
}.

(** [build_wizard_page_modal]: [Raise] when [compute_pages] or
    [build_fields_for_page] raises, or on the [IndexError] of
    [pages[page]] for an empty page list. *)
Definition build_wizard_page_modal (E : env) (max_blocks : Z) (fm : form)
           (all_fields : list field) (token : pystr) (page : Z) (state_values : answers)
  : outcome view :=
  match compute_pages E fm all_fields state_values with
  | Raise ex => Raise ex
  | Ok pages logs =>
      let total := Z.of_nat (List.length pages) in
      let page := Z.max 0 (Z.min page (total - 1)) in
      match nth_error pages (Z.to_nat page) with
      | None => Raise (RuntimeError "list index out of range")
      | Some page_item =>
          match build_fields_for_page E max_blocks all_fields page_item with
          | Raise ex => Raise ex
          | Ok fields_blocks _ =>
          let nav_elems :=
            (if 0 <? page then
               [{| btn_action_id := s "wizard_prev"; btn_text := s "Back";
                   btn_primary := false; btn_value := token |}] else [])
            ++ (if page <? total - 1 then
               [{| btn_action_id := s "wizard_next"; btn_text := s "Next";
                   btn_primary := true; btn_value := token |}] else []) in
          let blocks :=
            [VSection (s "*Step " ++ z_str (page + 1) ++ s " of " ++ z_str total ++ s "*")]
            ++ map VField fields_blocks
            ++ (match nav_elems with
                | [] => []
                | _ => [VActions (s "wizard_nav") nav_elems]
                end) in
          let is_last := match page_item with Terminal => true | _ => false end in
          Ok {| v_callback_id := if is_last then s "wizard_submit" else s "wizard_page";
                v_title := py_slice_to (match form_name fm with
                                        | Some n => if str_truthy n then n else s "New IT Ticket"
                                        | None => s "New IT Ticket"
                                        end) 24;
                v_close := if page =? 0 then s "Cancel" else s "Close";
                v_blocks := blocks;
                v_meta_ticket_form_id := form_id fm;
                v_meta_wizard_token := token;
                v_meta_page_index := page;
                v_submit := if is_last then Some (s "Create") else None |} logs
          end
      end
  end.

(* ------------------------------------------------------------------ *)
(** ** The [wizard_submit] branch of [interactions] ([routes/core.py]) *)

(** [del WIZARD_SESSIONS[token]] *)
Definition del_session (token : pystr) (st : sessions) : sessions :=
  filter (fun kv => negb (pystr_eqb (fst kv) token)) st.

(** The JSON response of the handler. *)
Inductive response :=
| RespClear
| RespCreated (ticket_id : option Z)
| RespErrors (block : pystr) (msg : pystr).

(** The [wizard_submit] branch, returning the response (or the exception
    that escapes the handler) and the session store it leaves.  The
    collaborators: [fd_post] returns the [id] of the created ticket
    ([None] inside when absent) or [None] when it raises; [notify] is
    [_notify_user_ticket_created]; [user_email] is what
    [get_user_email] returned. *)
Definition wizard_submit (E : env) (cfg : config)
           (fd_post : ticket -> option (option Z)) (notify : pystr -> Z -> bool)
           (store : sessions) (meta_token : option pystr) (meta_form_id : option Z)
           (view_values : answers) (user_id : option pystr) (user_email : option pystr)
  : outcome response * sessions :=
  let token := match meta_token with
               | Some t => if str_truthy t then Some t else None
               | None => None
               end in
  let session := match token with Some t => lookup t store | None => None end in
  let merged := dict_merge (match session with Some ss => sess_values ss | None => [] end)
                           view_values in
  let ticket_form_id := match session with
                        | Some ss => if Z.eqb (sess_ticket_form_id ss) 0 then meta_form_id
                                     else Some (sess_ticket_form_id ss)
                        | None => meta_form_id
                        end in
  let uid := match user_id with Some u => if str_truthy u then Some u else None
                                | None => None end in
  let email := match uid with Some _ => user_email | None => None end in
  match modal_values_to_fd_ticket E cfg merged ticket_form_id email with
  | Raise ex => (Raise ex, store)
  | Ok fd_ticket _ =>
      match fd_post fd_ticket with
      | None => (Ok (RespErrors (s "subject") (s "Ticket creation failed. Please try again.")) [],
                 store)
      | Some ticket_id =>
          let notified := match uid, ticket_id with
                          | Some u, Some i => if Z.eqb i 0 then false else notify u i
                          | _, _ => false
                          end in
          let store' := match token with
                        | Some t => if is_some (lookup t store) then del_session t store
                                    else store
                        | None => store
                        end in
          (Ok (if notified then RespClear else RespCreated ticket_id) [], store')
      end
  end.

(* ------------------------------------------------------------------ *)
(** ** [get_sections] with its scraped fallback ([services/freshdesk.py]) *)

(** [d[k] = v] on a dict with integer keys, in insertion order. *)
Definition zdict_set {A} (k : Z) (v : A) (d : list (Z * A)) : list (Z * A) :=
  if existsb (fun kv => Z.eqb (fst kv) k) d
  then map (fun kv => if Z.eqb (fst kv) k then (k, v) else kv) d
  else d ++ [(k, v)].

(** [_SCRAPED_SECTIONS] and the number of portal scrapes made so far. *)
Record scrape_state := {
  scraped_sections : list (Z * list csection);
  scrape_count : nat;
}.

(** [_scrape_portal_fields()], as far as [_SCRAPED_SECTIONS] goes: it
    writes one entry per parent field it finds on the portal page. *)
Definition scrape_portal_fields (found : list (Z * list csection)) (st : scrape_state)
  : scrape_state :=
  {| scraped_sections := fold_left (fun d kv => zdict_set (fst kv) (snd kv) d) found
                                   (scraped_sections st);
     scrape_count := S (scrape_count st) |}.

(** [get_sections(field_id)]: [api] is [Some (r.json() or [])] when the
    request succeeds and [None] when it fails or raises; [found] is what the
    portal scraper finds if it runs. *)
Definition get_sections_svc (api : option (list csection)) (found : list (Z * list csection))
           (field_id : Z) (st : scrape_state) : list csection * scrape_state :=
  match api with
  | Some secs => (secs, st)
  | None =>
      match cache_get field_id (scraped_sections st) with
      | Some secs => (secs, st)
      | None =>
          let st' := scrape_portal_fields found st in
          (get_or (cache_get field_id (scraped_sections st')) [], st')
      end
  end.

(* ------------------------------------------------------------------ *)
(** ** [get_user_email] ([services/slack.py]) *)

(** A custom profile field: its [label] and [value]. *)
Record profile_field := {
  pf_label : option pystr;
  pf_value : option pystr;
}.

(** [d[k] = v] on a dict with string keys, in insertion order. *)
Definition dict_set {A} (k : pystr) (v : A) (d : list (pystr * A)) : list (pystr * A) :=
  if existsb (fun kv => pystr_eqb (fst kv) k) d
  then map (fun kv => if pystr_eqb (fst kv) k then (k, v) else kv) d
  else d ++ [(k, v)].

Section UserEmail.

(** [str.lower()], as for [slug]. *)
Variable py_lower : pystr -> pystr.

(** [get_user_email(user_id)] on [_EMAIL_CACHE]: [users_info] is [None]
    when [users.info] raises and otherwise the [user.profile.email] it
    returned; [users_profile] is [None] when [users.profile.get] raises and
    otherwise its [profile.email] and its custom [fields]. *)
Definition get_user_email (users_info : option (option pystr))
           (users_profile : option (option pystr * list profile_field))
           (cache : list (pystr * pystr)) (user_id : pystr)
  : option pystr * list (pystr * pystr) :=
  let from_profile :=
    match users_profile with
    | None => (None, cache)
    | Some (email, fields) =>
        let scan :=
          match find (fun fl => let label := py_lower (get_or (pf_label fl) []) in
                                let value := get_or (pf_value fl) [] in
                                str_truthy value && substr (s "email") label
                                && z_mem 64 value) fields with
          | Some fl => let value := get_or (pf_value fl) [] in
                       (Some value, dict_set user_id value cache)
          | None => (None, cache)
          end in
        match email with
        | Some e => if str_truthy e then (Some e, dict_set user_id e cache) else scan
        | None => scan
        end
    end in
  let from_info :=
    match users_info with
    | Some (Some e) => if str_truthy e then (Some e, dict_set user_id e cache) else from_profile
    | _ => from_profile
    end in
  match lookup user_id cache with
  | Some cached => if str_truthy cached then (Some cached, cache) else from_info
  | None => from_info
  end.

End UserEmail.

(* ------------------------------------------------------------------ *)
(** ** Concrete scenarios *)

Module Scenarios.

Definition mk_field (id : Z) (name : option pystr) (ty : string)
           (req_c req_a displayed : bool) (deps : list dep_field) : field :=
  {| fld_id := id; fld_name := name; fld_type := Some (s ty);
     fld_required_for_customers := req_c; fld_required_for_agents := req_a;
     fld_displayed_to_customers := displayed; fld_customers_can_edit := None;
     fld_dependent_fields := deps; fld_section_mappings := [];
     fld_cp := None; fld_choices := None; fld_option_values := None;
     fld_values := None; fld_dropdown_choices := None; fld_label_choices := None;
     fld_pp := None |}.

Definition text_entry (v : string) : entry := [(s "a", PlainTextInput (Some (s v)))].
Definition select_entry (v : pystr) : entry := [(s "a", StaticSelectInput (Some v))].

(** [tests/test_nested_field_pages.py]: a nested container (no name, not
    displayed, required) with two dependent text fields. *)
Definition nested_fields : list field :=
  [mk_field 100 None "nested_field" true false false
     [{| dep_id := Some 10; dep_name := Some (s "cat"); dep_level := None |};
      {| dep_id := Some 11; dep_name := Some (s "app"); dep_level := None |}]].

Definition nested_detail : form_detail :=
  {| fdt_name := None; fdt_fields := [RInt 100]; fdt_section_ids := [] |}.

Definition nested_env : env :=
  {| get_form_detail := fun _ => Some nested_detail;
     get_sections_cached := fun _ => [];
     fetch_field_detail := fun _ => None;
     admin_ticket_fields := Some [] |}.

Definition nested_form : form :=
  {| form_id := 1; form_name := None; form_fields := [RInt 100] |}.

(** A form whose detail cannot be fetched ([fd_get] raises). *)
Definition unreachable_env : env :=
  {| get_form_detail := fun _ => None;
     get_sections_cached := fun _ => [];
     fetch_field_detail := fun _ => None;
     admin_ticket_fields := None |}.

(** The country/region scenario: a dropdown [country] (US, FR) whose
    section 11, activated by FR, holds the text field [region]. *)
Definition country : field :=
  {| fld_id := 1; fld_name := Some (s "country"); fld_type := Some (s "custom_dropdown");
     fld_required_for_customers := true; fld_required_for_agents := true;
     fld_displayed_to_customers := true; fld_customers_can_edit := None;
     fld_dependent_fields := []; fld_section_mappings := [];
     fld_cp := None; fld_choices := Some (CList [CIScalar (s "US"); CIScalar (s "FR")]);
     fld_option_values := None; fld_values := None; fld_dropdown_choices := None;
     fld_label_choices := None; fld_pp := None |}.

Definition region : field :=
  mk_field 2 (Some (s "region")) "custom_text" true true true [].

Definition subject_field : field :=
  mk_field 3 (Some (s "subject")) "default_subject" true true true [].

Definition country_fields : list field := [country; region; subject_field].

Definition region_section : csection :=
  {| sec_id := Some 11; sec_fields := [RInt 2];
     sec_choices := Some (CList [CIScalar (s "FR")]); sec_values := None;
     sec_option_values := None |}.

Definition country_env : env :=
  {| get_form_detail := fun _ => Some {| fdt_name := Some (s "System Access Request");
                                         fdt_fields := [RInt 1; RInt 2; RInt 3];
                                         fdt_section_ids := [Some 11] |};
     get_sections_cached := fun fid => if Z.eqb fid 1 then [region_section] else [];
     fetch_field_detail := fun _ => None;
     admin_ticket_fields := Some country_fields |}.

Definition country_form : form :=
  {| form_id := 7; form_name := Some (s "System Access Request"); form_fields := [] |}.

Definition c3_answers : answers :=
  [(s "country", select_entry (s "FR")); (s "region", text_entry "x");
   (s "subject", text_entry "Printer")].

Definition tok : pystr := s "tok".

Definition c4_session : session :=
  {| sess_ticket_form_id := 1; sess_page := 0; sess_values := [] |}.

(** One hundred copies of U+00E9: 100 code points, 200 UTF-8 bytes. *)
Definition e_acute_100 : pystr := repeat 233 100.

(** A short value that happens to be the proxy of the choice ["US"]. *)
Definition us_proxy_text : pystr :=
  HASH_PREFIX ++ SHA1.hexdigest (s "US").

(** [FRESHDESK_EMAIL] set, [IT_GROUP_ID] unset. *)
Definition cfg0 : config :=
  {| cfg_freshdesk_email := s "it@example.com"; cfg_it_group_id := None |}.

Definition hash_abc : pystr := s "hash:abc".

(** A wizard session of [country_form] standing on its last page. *)
Definition c7_session : session :=
  {| sess_ticket_form_id := 7; sess_page := 2; sess_values := [] |}.

(** A form whose detail carries an empty display name. *)
Definition blank_name_env : env :=
  {| get_form_detail := fun _ => Some {| fdt_name := Some []; fdt_fields := [];
                                         fdt_section_ids := [] |};
     get_sections_cached := fun _ => [];
     fetch_field_detail := fun _ => None;
     admin_ticket_fields := Some [] |}.

(** A fresh session of [country_form] and an update answering the
    country and, from the core page, the subject. *)
Definition c10_session : session :=
  {| sess_ticket_form_id := 7; sess_page := 0; sess_values := [] |}.

Definition c10_new : answers :=
  [(s "country", select_entry (s "FR")); (s "subject", text_entry "Printer")].

(** A dropdown that carries no choices of its own. *)
Definition bare_dropdown : field :=
  mk_field 5 (Some (s "os")) "custom_dropdown" true true true [].

(** The options and the block [to_slack_block] builds for [country]. *)
Definition country_options : list slack_option :=
  [{| opt_text := s "US"; opt_value := s "US" |};
   {| opt_text := s "FR"; opt_value := s "FR" |}].

Definition country_block : block :=
  {| block_id := Some (s "country");
     block_elem := EStaticSelect country_options;
     block_optional := false |}.

(** A choice of 151 code points starting with the lone surrogate U+D800
    (a JSON ["\ud800"] decodes to one), and a required dropdown offering
    it as its only choice. *)
Definition surrogate_choice : pystr := 55296 :: repeat 97 150.

Definition surrogate_dropdown : field :=
  {| fld_id := 5; fld_name := Some (s "os"); fld_type := Some (s "custom_dropdown");
     fld_required_for_customers := true; fld_required_for_agents := true;
     fld_displayed_to_customers := true; fld_customers_can_edit := None;
     fld_dependent_fields := []; fld_section_mappings := [];
     fld_cp := None; fld_choices := Some (CList [CIScalar surrogate_choice]);
     fld_option_values := None; fld_values := None; fld_dropdown_choices := None;
     fld_label_choices := None; fld_pp := None |}.

(** A form listing that dropdown alone. *)
Definition surrogate_env : env :=
  {| get_form_detail := fun _ => Some {| fdt_name := Some (s "System Access Request");
                                         fdt_fields := [RInt 5];
                                         fdt_section_ids := [] |};
     get_sections_cached := fun _ => [];
     fetch_field_detail := fun _ => None;
     admin_ticket_fields := Some [surrogate_dropdown] |}.

(** Freshdesk answers the ticket creation with id 42; the DM succeeds. *)
Definition post_42 (_ : ticket) : option (option Z) := Some (Some 42).
Definition notify_ok (_ : pystr) (_ : Z) : bool := true.

(** An empty [_SCRAPED_SECTIONS], a scrape finding field 1 and one finding
    nothing. *)
Definition scrape0 : scrape_state := {| scraped_sections := []; scrape_count := 0 |}.
Definition found_country : list (Z * list csection) := [(1, [region_section])].

End Scenarios.

(* ================================================================== *)
(** * Properties *)

(** ** Basic facts *)

Lemma pystr_eqb_eq : forall a b, pystr_eqb a b = true <-> a = b.
Proof.
  induction a as [|x a IH]; destruct b as [|y b]; simpl; split; intro H;
    try congruence.
  - apply andb_true_iff in H as [H1 H2]. apply Z.eqb_eq in H1.
    apply IH in H2. subst. reflexivity.
  - inversion H; subst. apply andb_true_iff. split.
    + apply Z.eqb_refl.
    + apply IH. reflexivity.
Qed.

Lemma pystr_eqb_refl : forall a, pystr_eqb a a = true.
Proof. intro a. apply pystr_eqb_eq. reflexivity. Qed.

Example sha1_abc :
  SHA1.hexdigest (s "abc") = s "a9993e364706816aba3e25717850c26c9cd0d89d".
Proof. vm_compute. reflexivity. Qed.

Example sha1_empty :  SHA1.hexdigest [] = s "da39a3ee5e6b4b0d3255bfef95601890afd80709".
Proof. vm_compute. reflexivity. Qed.

Lemma z_mem_In : forall x l, z_mem x l = true <-> In x l.
Proof.
  intros x l. unfold z_mem. rewrite existsb_exists. split.
  - intros [y [Hy Hxy]]. apply Z.eqb_eq in Hxy. subst. exact Hy.
  - intro H. exists x. split; [exact H | apply Z.eqb_refl].
Qed.

Lemma str_mem_In : forall x l, str_mem x l = true <-> In x l.
Proof.
  intros x l. unfold str_mem. rewrite existsb_exists. split.
  - intros [y [Hy Hxy]]. apply pystr_eqb_eq in Hxy. subst. exact Hy.
  - intro H. exists x. split; [exact H | apply pystr_eqb_refl].
Qed.

Lemma by_id_fold : forall fs fid acc f,
  fold_left (fun acc f => if Z.eqb (fld_id f) fid then Some f else acc) fs acc = Some f ->
  acc = Some f \/ (In f fs /\ fld_id f = fid).
Proof.
  induction fs as [|g fs IH]; simpl; intros fid acc f H.
  - left. exact H.
  - apply IH in H as [H | [Hin Hid]].
    + destruct (Z.eqb_spec (fld_id g) fid) as [E|E].
      * right. inversion H; subst; split; simpl; auto.
      * left. exact H.
    + right. split; [right; exact Hin | exact Hid].
Qed.

Lemma by_id_spec : forall fs fid f,
  by_id fs fid = Some f -> In f fs /\ fld_id f = fid.
Proof.
  intros fs fid f H. apply by_id_fold in H as [H | H]; [discriminate | exact H].
Qed.

(** ** Growth of the traversal state *)

(** The page list is only extended by field pages, and [visited] only
    grows. *)
Definition grows (st st' : wstate) : Prop :=
  (exists ext, w_pages st' = w_pages st ++ map FieldPage ext)
  /\ (forall x, In x (w_visited st) -> In x (w_visited st')).

Lemma grows_refl : forall st, grows st st.
Proof.
  intro st. split.
  - exists []. simpl. rewrite app_nil_r. reflexivity.
  - auto.
Qed.

Lemma grows_trans : forall a b c, grows a b -> grows b c -> grows a c.
Proof.
  intros a b c [[e1 H1] V1] [[e2 H2] V2]. split.
  - exists (e1 ++ e2). rewrite H2, H1, map_app, app_assoc. reflexivity.
  - auto.
Qed.

Create HintDb wizard.
#[local] Hint Resolve grows_refl : wizard.

(** Any state relation that every step establishes and that composes is
    established by the loop. *)
Lemma seq_until_inv {A} (P : wstate -> wstate -> Prop)
      (step : A -> wstate -> wres) :
  (forall st, P st st) ->
  (forall a b c, P a b -> P b c -> P a c) ->
  (forall x st r st', step x st = WDone r st' -> P st st') ->
  forall xs st r st', seq_until step xs st = WDone r st' -> P st st'.
Proof.
  intros Hrefl Htrans Hstep xs. induction xs as [|x xs IH]; simpl; intros st r st' H.
  - inversion H; subst. apply Hrefl.
  - destruct (step x st) as [[|] s1|] eqn:Hs; try discriminate.
    + apply Htrans with s1; [eapply Hstep; exact Hs | eapply IH; exact H].
    + inversion H; subst. eapply Hstep. exact Hs.
Qed.

Lemma visit_grows : forall fid st, grows st (visit fid st).
Proof.
  intros fid st. split.
  - exists []. simpl. rewrite app_nil_r. reflexivity.
  - simpl. auto.
Qed.

Lemma push_grows : forall fid st, grows st (push fid st).
Proof.
  intros fid st. split.
  - exists [fid]. reflexivity.
  - simpl. auto.
Qed.

#[local] Hint Resolve visit_grows push_grows grows_trans : wizard.

Section Growth.

Variable E : env.
Variable fs : list field.
Variable V : answers.
Variable fsi : list (option Z).

Lemma section_step_inv (P : wstate -> wstate -> Prop) kids sel :
  (forall st, P st st) ->
  (forall a b c, P a b -> P b c -> P a c) ->
  (forall x st r st', kids x st = WDone r st' -> P st st') ->
  forall sec st r st', section_step fsi kids sel sec st = WDone r st' -> P st st'.
Proof.
  intros Hr Ht Hk sec st r st' H. unfold section_step in H.
  destruct (sec_id sec) as [sid|]; [|inversion H; subst; apply Hr].
  destruct (negb (in_section_ids sid fsi)); [inversion H; subst; apply Hr|].
  destruct (negb (str_mem sel (activator_values sec))); [inversion H; subst; apply Hr|].
  eapply seq_until_inv; eauto.
Qed.

Lemma add_grows : forall n fid st r st',
  add_field_and_children E fs V fsi n fid st = WDone r st' -> grows st st'.
Proof.
  induction n as [|n IH]; simpl; intros fid st r st' H; [discriminate|].
  destruct (z_mem fid (w_visited st)); [inversion H; subst; apply grows_refl|].
  destruct (by_id fs fid) as [f|]; [|inversion H; subst; apply visit_grows].
  destruct (_ || _); [inversion H; subst; apply visit_grows|].
  destruct (to_slack_block _) as [m|]; [|discriminate].
  destruct (normalize_blocks m) as [|b bs]; [inversion H; subst; apply visit_grows|].
  assert (G : grows st (push fid (visit fid st))) by eauto with wizard.
  destruct (negb _).
  - destruct (selected_value_for E f V) as [sel|]; [|inversion H; subst; exact G].
    apply grows_trans with (push fid (visit fid st)); [exact G|].
    eapply seq_until_inv; [exact grows_refl | exact grows_trans | | exact H].
    intros sec s r' s' Hs. eapply section_step_inv; eauto using grows_refl, grows_trans.
  - inversion H; subst. exact G.
Qed.

End Growth.

(** ** The fuel of the traversal is never exhausted *)







Section Fuel.

Variable E : env.
Variable fs : list field.
Variable V : answers.
Variable fsi : list (option Z).


End Fuel.


Lemma traverse_grows : forall E d fm fs V r st,
  traverse E d fm fs V = WDone r st -> grows wstate_init st.
Proof.
  intros E d fm fs V r st H. unfold traverse in H.
  eapply seq_until_inv; [exact grows_refl | exact grows_trans | | exact H].
  intros. eapply add_grows. eassumption.
Qed.

Lemma traverse_pages : forall E d fm fs V r st,
  traverse E d fm fs V = WDone r st -> exists ids, w_pages st = map FieldPage ids.
Proof.
  intros E d fm fs V r st H. apply traverse_grows in H as [[ext Hext] _].
  exists ext. exact Hext.
Qed.

(** ** C1 *)




(** ** C2: more answers only extend the field pages *)

(** The field ids of a page list, Core and Terminal left out. *)
Definition page_field_ids (ps : list page) : list Z :=
  flat_map (fun p => match p with FieldPage i => [i] | _ => [] end) ps.

Lemma page_field_ids_app : forall a b,
  page_field_ids (a ++ b) = page_field_ids a ++ page_field_ids b.
Proof. intros. unfold page_field_ids. apply flat_map_app. Qed.

Lemma page_field_ids_map : forall ids, page_field_ids (map FieldPage ids) = ids.
Proof. induction ids as [|i ids IH]; simpl; [reflexivity | rewrite IH; reflexivity]. Qed.

(** [A] extends [B] with the same values. *)
Definition answers_extend (B A : answers) : Prop :=
  forall k v, lookup k B = Some v -> lookup k A = Some v.

Lemma selected_value_for_extend : forall E f B A x,
  answers_extend B A ->
  selected_value_for E f B = Some x -> selected_value_for E f A = Some x.
Proof.
  intros E f B A x Hext H. unfold selected_value_for in *.
  destruct (fld_name f) as [n|]; [|simpl in H; discriminate].
  destruct (lookup n B) as [e|] eqn:HB.
  - rewrite (Hext _ _ HB). exact H.
  - simpl in H. discriminate.
Qed.

(** Two runs from one state: where the run on [B] goes on, the run on [A]
    ends in the same state; where it blocks, the run on [A] extends it. *)
Definition sim (rB : bool) (sB : wstate) (rA : bool) (sA : wstate) : Prop :=
  (rB = true -> rA = true /\ sA = sB) /\ (rB = false -> grows sB sA).

Lemma seq_until_sim {X} (stepB stepA : X -> wstate -> wres) :
  (forall x st rB sB rA sA, stepB x st = WDone rB sB -> stepA x st = WDone rA sA ->
                            sim rB sB rA sA) ->
  (forall x st r s, stepA x st = WDone r s -> grows st s) ->
  forall xs st rB sB rA sA,
    seq_until stepB xs st = WDone rB sB -> seq_until stepA xs st = WDone rA sA ->
    sim rB sB rA sA.
Proof.
  intros Hsim HgA xs. induction xs as [|x xs IH]; simpl; intros st rB sB rA sA HB HA.
  - inversion HB; inversion HA; subst. split; [auto | discriminate].
  - destruct (stepB x st) as [b1 s1|] eqn:HB1; [|discriminate].
    destruct (stepA x st) as [a1 t1|] eqn:HA1; [|discriminate].
    destruct (Hsim _ _ _ _ _ _ HB1 HA1) as [S1 S2].
    destruct b1.
    + destruct (S1 eq_refl) as [-> ->]. eapply IH; eassumption.
    + inversion HB; subst. split; [discriminate|]. intros _.
      specialize (S2 eq_refl). destruct a1.
      * apply grows_trans with t1; [exact S2|].
        eapply seq_until_inv; [exact grows_refl | exact grows_trans | exact HgA | exact HA].
      * inversion HA; subst. exact S2.
Qed.

Section Monotone.

Variable E : env.
Variable fs : list field.
Variable B A : answers.
Variable fsi : list (option Z).
Hypothesis Hext : answers_extend B A.

Lemma section_step_grows : forall V n sel sec st r s,
  section_step fsi (add_field_and_children E fs V fsi n) sel sec st = WDone r s ->
  grows st s.
Proof.
  intros V n sel sec st r s H. eapply section_step_inv; [exact grows_refl | exact grows_trans | | exact H].
  intros. eapply add_grows. eassumption.
Qed.

Lemma add_sim : forall n fid st rB sB rA sA,
  add_field_and_children E fs B fsi n fid st = WDone rB sB ->
  add_field_and_children E fs A fsi n fid st = WDone rA sA ->
  sim rB sB rA sA.
Proof.
  induction n as [|n IH]; simpl; intros fid st rB sB rA sA HB HA; [discriminate|].
  assert (Hsame : forall r s, WDone r s = WDone rB sB -> WDone r s = WDone rA sA ->
                              sim rB sB rA sA)
    by (intros r s0 H1 H2; inversion H1; inversion H2; subst;
        split; [auto | intros; apply grows_refl]).
  destruct (z_mem fid (w_visited st)); [eapply Hsame; eassumption|].
  destruct (by_id fs fid) as [f|]; [|eapply Hsame; eassumption].
  destruct (_ || _); [eapply Hsame; eassumption|].
  destruct (to_slack_block _) as [m|]; [|discriminate].
  destruct (normalize_blocks m) as [|b bs]; [eapply Hsame; eassumption|].
  destruct (negb _); [|eapply Hsame; eassumption].
  destruct (selected_value_for E f B) as [x|] eqn:SB.
  - rewrite (selected_value_for_extend E f B A x Hext SB) in HA.
    eapply seq_until_sim; [| | exact HB | exact HA].
    + intros sec s rB' sB' rA' sA' H1 H2. unfold section_step in H1, H2.
      destruct (sec_id sec) as [sid|];
        [|inversion H1; inversion H2; subst; split; [auto | discriminate]].
      destruct (negb (in_section_ids sid fsi));
        [inversion H1; inversion H2; subst; split; [auto | discriminate]|].
      destruct (negb (str_mem _ _));
        [inversion H1; inversion H2; subst; split; [auto | discriminate]|].
      eapply seq_until_sim; [exact IH | | exact H1 | exact H2].
      intros. eapply add_grows. eassumption.
    + intros. eapply section_step_grows. eassumption.
  - inversion HB; subst. split; [discriminate|]. intros _.
    destruct (selected_value_for E f A) as [y|].
    + eapply seq_until_inv; [exact grows_refl | exact grows_trans | | exact HA].
      intros. eapply section_step_grows. eassumption.
    + inversion HA; subst. apply grows_refl.
Qed.

End Monotone.

(** C2: if answer set [A] extends [B] with the same values, the field
    pages computed on [B] are a prefix of those computed on [A]. *)
Theorem compute_pages_prefix_monotone : forall E fm fs B A psB psA lB lA,
  answers_extend B A ->
  compute_pages E fm fs B = Ok psB lB ->
  compute_pages E fm fs A = Ok psA lA ->
  exists ext, page_field_ids psA = page_field_ids psB ++ ext.
Proof.
  intros E fm fs B A psB psA lB lA Hext HB HA. unfold compute_pages in HB, HA.
  destruct (get_form_detail E (form_id fm)) as [d|]; [|discriminate].
  destruct (traverse E d fm fs B) as [rB sB|] eqn:TB; [|discriminate].
  destruct (traverse E d fm fs A) as [rA sA|] eqn:TA; [|discriminate].
  inversion HB; inversion HA; subst.
  unfold traverse in TB, TA.
  assert (S : sim rB sB rA sA).
  { eapply seq_until_sim; [| | exact TB | exact TA].
    - intros. eapply add_sim; eassumption.
    - intros. eapply add_grows. eassumption. }
  rewrite !page_field_ids_app. simpl. rewrite !app_nil_r.
  destruct rB.
  - destruct (proj1 S eq_refl) as [_ ->]. exists []. rewrite app_nil_r. reflexivity.
  - destruct (proj2 S eq_refl) as [[ext Hx] _]. exists ext.
    rewrite Hx, page_field_ids_app, page_field_ids_map. reflexivity.
Qed.

Lemma compute_pages_prefix_monotone_witness :
  answers_extend [] [(s "country", Scenarios.select_entry (s "FR"))] /\
  exists ext,
    page_field_ids [FieldPage 1; FieldPage 2; Core; Terminal]
    = page_field_ids [FieldPage 1; Core; Terminal] ++ ext.
Proof.
  assert (H : answers_extend [] [(s "country", Scenarios.select_entry (s "FR"))])
    by (intros k v Hk; discriminate).
  split; [exact H|].
  apply (compute_pages_prefix_monotone Scenarios.country_env Scenarios.country_form
           Scenarios.country_fields _ _ _ _ [] [] H); vm_compute; reflexivity.
Defined.

(** ** C3: the answers kept by pruning are on the recomputed pages *)

Lemma prune_lookup : forall valid V k,
  lookup k (prune valid V) = if str_mem k valid then lookup k V else None.
Proof.
  intros valid V k. induction V as [|[k' v] V IH]; simpl.
  - destruct (str_mem k valid); reflexivity.
  - destruct (str_mem k' valid) eqn:Hk'; simpl.
    + destruct (pystr_eqb k k') eqn:E1; [|exact IH].
      apply pystr_eqb_eq in E1. subst. rewrite Hk'. reflexivity.
    + rewrite IH. destruct (pystr_eqb k k') eqn:E1; [|reflexivity].
      apply pystr_eqb_eq in E1. subst. rewrite Hk'. reflexivity.
Qed.

Lemma prune_In : forall valid V k e,
  In (k, e) (prune valid V) -> In (k, e) V /\ In k valid.
Proof.
  intros valid V k e H. unfold prune in H. apply filter_In in H as [H1 H2].
  split; [exact H1 | apply str_mem_In; exact H2].
Qed.

Lemma valid_names_spec : forall fs pages n,
  In n (valid_names fs pages) <->
  exists fid f, In (FieldPage fid) pages /\ by_id fs fid = Some f
                /\ fld_name f = Some n /\ str_truthy n = true.
Proof.
  intros fs pages n. unfold valid_names. rewrite in_flat_map. split.
  - intros [item [Hin Hn]]. destruct item as [fid| |]; try destruct Hn.
    destruct (by_id fs fid) as [f|] eqn:Hf; [|destruct Hn].
    destruct (fld_name f) as [m|] eqn:Hm; [|destruct Hn].
    destruct (str_truthy m) eqn:Ht; [|destruct Hn].
    destruct Hn as [<- | []]. exists fid, f. auto.
  - intros [fid [f [Hin [Hf [Hn Ht]]]]]. exists (FieldPage fid). split; [exact Hin|].
    rewrite Hf, Hn, Ht. left. reflexivity.
Qed.

Lemma selected_value_for_lookup : forall E f V1 V2,
  match fld_name f with Some n => lookup n V1 = lookup n V2 | None => True end ->
  selected_value_for E f V1 = selected_value_for E f V2.
Proof.
  intros E f V1 V2 H. unfold selected_value_for.
  destruct (fld_name f) as [n|]; [rewrite H|]; reflexivity.
Qed.

Lemma grows_In : forall a b p, grows a b -> In p (w_pages a) -> In p (w_pages b).
Proof.
  intros a b p [[ext Hx] _] H. rewrite Hx. apply in_or_app. left. exact H.
Qed.

(** A loop whose steps agree once their result is known to lead to [final]. *)
Lemma seq_until_congr {X} (step1 step2 : X -> wstate -> wres)
      (final : wstate) :
  (forall x st r st', step1 x st = WDone r st' -> grows st' final ->
                      step2 x st = WDone r st') ->
  (forall x st r st', step1 x st = WDone r st' -> grows st st') ->
  forall xs st r st', seq_until step1 xs st = WDone r st' -> grows st' final ->
                      seq_until step2 xs st = WDone r st'.
Proof.
  intros Hc Hg xs. induction xs as [|x xs IH]; simpl; intros st r st' H Hf; [exact H|].
  destruct (step1 x st) as [b s1|] eqn:H1; [|discriminate].
  destruct b.
  - assert (G : grows s1 st')
      by (eapply seq_until_inv; [exact grows_refl | exact grows_trans | exact Hg | exact H]).
    rewrite (Hc _ _ _ _ H1 (grows_trans _ _ _ G Hf)). eapply IH; eassumption.
  - inversion H; subst. rewrite (Hc _ _ _ _ H1 Hf). reflexivity.
Qed.

Section Congruence.

Variable E : env.
Variable fs : list field.
Variable V1 V2 : answers.
Variable fsi : list (option Z).

(** The two answer sets select the same values for every field on the
    pages of [final]. *)
Definition agree_on (final : wstate) : Prop :=
  forall fid f, In (FieldPage fid) (w_pages final) -> by_id fs fid = Some f ->
                selected_value_for E f V1 = selected_value_for E f V2.

Lemma add_congr : forall n fid st r st' final,
  add_field_and_children E fs V1 fsi n fid st = WDone r st' ->
  grows st' final -> agree_on final ->
  add_field_and_children E fs V2 fsi n fid st = WDone r st'.
Proof.
  induction n as [|n IH]; simpl; intros fid st r st' final H Hf Ha; [discriminate|].
  destruct (z_mem fid (w_visited st)); [exact H|].
  destruct (by_id fs fid) as [f|] eqn:Hby; [|exact H].
  destruct (_ || _); [exact H|].
  destruct (to_slack_block _) as [m|]; [|discriminate].
  destruct (normalize_blocks m) as [|b bs]; [exact H|].
  destruct (negb _); [|exact H].
  set (st2 := push fid (visit fid st)) in *.
  assert (G : grows st2 st').
  { destruct (selected_value_for E f V1) as [x|].
    - eapply seq_until_inv; [exact grows_refl | exact grows_trans | | exact H].
      intros. eapply section_step_grows. eassumption.
    - inversion H; subst. apply grows_refl. }
  assert (Hsel : selected_value_for E f V1 = selected_value_for E f V2).
  { apply (Ha fid f); [|exact Hby].
    apply grows_In with st2; [exact (grows_trans _ _ _ G Hf)|].
    unfold st2, push. simpl. apply in_or_app. right. left. reflexivity. }
  rewrite <- Hsel.
  destruct (selected_value_for E f V1) as [x|]; [|exact H].
  eapply seq_until_congr; [| | exact H | exact Hf].
  - intros sec s0 r0 s1 H1 G1. unfold section_step in *.
    destruct (sec_id sec) as [sid|]; [|exact H1].
    destruct (negb (in_section_ids sid fsi)); [exact H1|].
    destruct (negb (str_mem _ _)); [exact H1|].
    eapply seq_until_congr; [| | exact H1 | exact G1].
    + intros. eapply IH; eassumption.
    + intros. eapply add_grows. eassumption.
  - intros. eapply section_step_grows. eassumption.
Qed.

End Congruence.

Lemma traverse_congr : forall E d fm fs V1 V2 r st,
  traverse E d fm fs V1 = WDone r st -> agree_on E fs V1 V2 st ->
  traverse E d fm fs V2 = WDone r st.
Proof.
  intros E d fm fs V1 V2 r st H Ha. unfold traverse in *.
  eapply seq_until_congr; [| | exact H | apply grows_refl].
  - intros. eapply add_congr; eassumption.
  - intros. eapply add_grows. eassumption.
Qed.

(** Pruning keeps the answers the traversal read, so the recomputed page
    list is the same (the empty key aside, which no name validates). *)
Lemma prune_recompute_same : forall E fm fs V pages l,
  lookup [] V = None ->
  compute_pages E fm fs V = Ok pages l ->
  compute_pages E fm fs (prune (valid_names fs pages) V) = Ok pages l.
Proof.
  intros E fm fs V pages l Hempty H. unfold compute_pages in *.
  destruct (get_form_detail E (form_id fm)) as [d|]; [|discriminate].
  destruct (traverse E d fm fs V) as [r st|] eqn:T; [|discriminate].
  inversion H; subst.
  rewrite (traverse_congr E d fm fs V _ r st T); [reflexivity|].
  intros fid f Hin Hby. apply selected_value_for_lookup.
  destruct (fld_name f) as [n|] eqn:Hn; [|exact I].
  rewrite prune_lookup.
  destruct (str_mem n _) eqn:Hm; [reflexivity|].
  destruct n as [|c n'].
  - exact Hempty.
  - exfalso. assert (In (c :: n') (valid_names fs (w_pages st ++ [Core; Terminal]))).
    { apply valid_names_spec. exists fid, f. repeat split; auto.
      apply in_or_app. left. exact Hin. }
    apply str_mem_In in H0. congruence.
Qed.

(** C3: after the prune step of a wizard update, every answer key left
    is the name of the field of some [FieldPage] in the recomputed page
    list.  Slack block ids are never empty, hence the answer set has no
    empty key. *)
Theorem prune_keys_on_recomputed_pages : forall E fm fs V pages l pages2 l2,
  lookup [] V = None ->
  compute_pages E fm fs V = Ok pages l ->
  compute_pages E fm fs (prune (valid_names fs pages) V) = Ok pages2 l2 ->
  forall k e, In (k, e) (prune (valid_names fs pages) V) ->
  exists fid f, In (FieldPage fid) pages2 /\ by_id fs fid = Some f /\ fld_name f = Some k.
Proof.
  intros E fm fs V pages l pages2 l2 Hempty H1 H2 k e Hk.
  rewrite (prune_recompute_same E fm fs V pages l Hempty H1) in H2.
  inversion H2; subst.
  apply prune_In in Hk as [_ Hk]. apply valid_names_spec in Hk.
  destruct Hk as [fid [f [Hin [Hby [Hn _]]]]]. exists fid, f. auto.
Qed.

Lemma prune_keys_on_recomputed_pages_witness :
  lookup [] Scenarios.c3_answers = None /\
  forall k e,
    In (k, e) (prune (valid_names Scenarios.country_fields
                        [FieldPage 1; FieldPage 2; Core; Terminal]) Scenarios.c3_answers) ->
    exists fid f, In (FieldPage fid) [FieldPage 1; FieldPage 2; Core; Terminal]
                  /\ by_id Scenarios.country_fields fid = Some f /\ fld_name f = Some k.
Proof.
  split; [reflexivity|].
  apply (prune_keys_on_recomputed_pages Scenarios.country_env Scenarios.country_form
           Scenarios.country_fields Scenarios.c3_answers _ [] _ []);
    [reflexivity | vm_compute; reflexivity | vm_compute; reflexivity].
Defined.

(** ** C4: the nested container of [tests/test_nested_field_pages.py] *)

(** C4 (code_bug): on the input of [test_compute_pages_linearizes_nested_fields]
    the container itself gets the one field page ([FieldPage 100]), with or
    without an answer for its first child, where the test expects the
    pages [10] and then [10; 11]; and "next" from that page does not
    advance, since the container has no answer of its own (the child's
    answer is even pruned, no page carrying its name). *)
Theorem nested_container_page_and_next :
  compute_pages Scenarios.nested_env Scenarios.nested_form Scenarios.nested_fields []
  = Ok [FieldPage 100; Core; Terminal] []
  /\ compute_pages Scenarios.nested_env Scenarios.nested_form Scenarios.nested_fields
       [(s "cat", Scenarios.text_entry "x")]
     = Ok [FieldPage 100; Core; Terminal] []
  /\ update_wizard Scenarios.nested_env [Scenarios.nested_form] Scenarios.nested_fields
       [(Scenarios.tok, Scenarios.c4_session)] Scenarios.tok [(s "cat", Scenarios.text_entry "x")] NavNext
     = [(Scenarios.tok, Scenarios.c4_session)].
Proof. vm_compute. repeat split; reflexivity. Qed.

(** ** C5: proxy values *)

Lemma utf8_char_length : forall c b, utf8_char c = Some b -> (1 <= List.length b)%nat.
Proof.
  intros c b H. unfold utf8_char in H.
  repeat match type of H with
         | context [if ?x then _ else _] => destruct x
         end; inversion H; subst; simpl; lia.
Qed.

Lemma utf8_encode_length : forall raw b,
  utf8_encode raw = Some b -> (List.length raw <= List.length b)%nat.
Proof.
  induction raw as [|c raw IH]; simpl; intros b H.
  - lia.
  - destruct (utf8_char c) as [bc|] eqn:Hc; [|discriminate].
    destruct (utf8_encode raw) as [br|] eqn:Hr; [|discriminate].
    inversion H; subst. rewrite length_app.
    apply utf8_char_length in Hc. specialize (IH br eq_refl). lia.
Qed.

Lemma hexdigest_length : forall b, List.length (SHA1.hexdigest b) = 40%nat.
Proof.
  intro b. unfold SHA1.hexdigest.
  destruct (SHA1.digest b) as [[[[h0 h1] h2] h3] h4].
  unfold SHA1.hex32. rewrite !length_app, !length_map, !length_seq. reflexivity.
Qed.

(** C5 (amended): a raw value of at most 150 code points (in particular
    one whose UTF-8 encoding has at most 150 bytes) is returned unchanged;
    a longer value is encoded as ["hash:"] followed by the 40 hexadecimal
    digits of the SHA-1 of its UTF-8 bytes, and a longer value that cannot
    be UTF-8 encoded (a lone surrogate) makes [proxy_value_if_needed]
    raise. Resolving any value that does not start with ["hash:"] gives it
    back unchanged, with no warning. *)
Theorem proxy_value_roundtrip : forall raw,
  ((List.length raw <= 150)%nat -> proxy_value_if_needed raw = Some raw)
  /\ (startswith raw HASH_PREFIX = false ->
        forall E name, resolve_proxy_value E name raw = Ok raw [])
  /\ (forall b, utf8_encode raw = Some b -> (List.length b <= 150)%nat ->
        proxy_value_if_needed raw = Some raw)
  /\ (forall b, (150 < List.length raw)%nat -> utf8_encode raw = Some b ->
        proxy_value_if_needed raw = Some (HASH_PREFIX ++ SHA1.hexdigest b)
        /\ List.length (SHA1.hexdigest b) = 40%nat)
  /\ ((150 < List.length raw)%nat -> utf8_encode raw = None ->
        proxy_value_if_needed raw = None).
Proof.
  intro raw.
  assert (Short : (List.length raw <= 150)%nat -> proxy_value_if_needed raw = Some raw).
  { intro H. unfold proxy_value_if_needed.
    apply Nat.leb_le in H. rewrite H. reflexivity. }
  split; [exact Short|]. split; [|split; [|split]].
  - intros Hp E name. unfold resolve_proxy_value. rewrite Hp. reflexivity.
  - intros b Hb Hl. apply Short. apply utf8_encode_length in Hb. lia.
  - intros b Hl Hb. split; [|apply hexdigest_length].
    unfold proxy_value_if_needed.
    destruct (List.length raw <=? 150)%nat eqn:H; [apply Nat.leb_le in H; lia|].
    rewrite Hb. reflexivity.
  - intros Hl Hb. unfold proxy_value_if_needed.
    destruct (List.length raw <=? 150)%nat eqn:H; [apply Nat.leb_le in H; lia|].
    rewrite Hb. reflexivity.
Qed.

Lemma proxy_value_roundtrip_witness :
  (150 < List.length Scenarios.surrogate_choice)%nat
  /\ utf8_encode Scenarios.surrogate_choice = None
  /\ proxy_value_if_needed Scenarios.surrogate_choice = None.
Proof.
  assert (H1 : (150 < List.length Scenarios.surrogate_choice)%nat) by (vm_compute; lia).
  assert (H2 : utf8_encode Scenarios.surrogate_choice = None) by (vm_compute; reflexivity).
  split; [exact H1|]. split; [exact H2|].
  exact (proj2 (proj2 (proj2 (proj2 (proxy_value_roundtrip Scenarios.surrogate_choice))))
           H1 H2).
Defined.

(** C5 (counterexample): a value of 200 UTF-8 bytes is returned unchanged,
    not as a digest; and a short value equal to the proxy of a current
    choice does not survive the round trip. *)
Lemma proxy_value_utf8_counterexample :
  utf8_encode Scenarios.e_acute_100 = Some (List.concat (repeat [195; 169] 100))
  /\ List.length (List.concat (repeat [195; 169] 100)) = 200%nat
  /\ proxy_value_if_needed Scenarios.e_acute_100 = Some Scenarios.e_acute_100
  /\ proxy_value_if_needed Scenarios.us_proxy_text = Some Scenarios.us_proxy_text
  /\ resolve_proxy_value Scenarios.country_env (Some (s "country")) Scenarios.us_proxy_text
     = Ok (s "US") [].
Proof. vm_compute. repeat split; reflexivity. Qed.

(** ** C6: unresolved proxies *)

Lemma match_digest_unmatched : forall name val want items,
  (forall raw lbl, In (raw, lbl) items ->
     exists b, utf8_encode raw = Some b /\ pystr_eqb (SHA1.hexdigest b) want = false) ->
  match_digest name val want items = Ok val [WarnNoChoiceMatched name].
Proof.
  intros name val want items. induction items as [|[raw lbl] rest IH]; intro H.
  - reflexivity.
  - simpl. destruct (H raw lbl (or_introl eq_refl)) as [b [Hb Hne]].
    rewrite Hb, Hne. apply IH. intros r l Hin. exact (H r l (or_intror Hin)).
Qed.

(** When the list of admin ticket fields can be fetched, a tagged value
    whose field is unknown, or whose field's choices all encode and none
    of them has the tag's digest, is returned unchanged with one warning;
    and [selected_value_for], which catches whatever the resolver raises,
    falls back to the tag itself. *)
Theorem resolve_proxy_unmatched_returns_tag : forall E name tag fds,
  startswith tag HASH_PREFIX = true ->
  admin_ticket_fields E = Some fds ->
  (find (fun f => opt_str_eqb (fld_name f) name) fds = None ->
     resolve_proxy_value E name tag = Ok tag [WarnFieldNotFound name])
  /\ (forall target,
        find (fun f => opt_str_eqb (fld_name f) name) fds = Some target ->
        (forall raw lbl,
           In (raw, lbl) (iter_choice_items
                            (get_field_choices (ensure_choices (fetch_field_detail E) target))) ->
           exists b, utf8_encode raw = Some b
                     /\ pystr_eqb (SHA1.hexdigest b) (skipn 5 tag) = false) ->
        resolve_proxy_value E name tag = Ok tag [WarnNoChoiceMatched name])
  /\ (forall f V, fld_name f = name ->
        extract_input (match name with
                       | Some n => get_or (lookup n V) []
                       | None => [] end) = Some (VStr tag) ->
        selected_value_for E f V
        = Some (VStr (match resolve_proxy_value E name tag with
                      | Ok r _ => r
                      | Raise _ => tag
                      end))).
Proof.
  intros E name tag fds Hp Hadm. split; [|split].
  - intro Hf. unfold resolve_proxy_value. rewrite Hp, Hadm. cbn [negb].
    rewrite Hf. reflexivity.
  - intros target Hf Hitems. unfold resolve_proxy_value. rewrite Hp, Hadm. cbn [negb].
    rewrite Hf. apply match_digest_unmatched. exact Hitems.
  - intros f V Hn Hx. unfold selected_value_for. cbv zeta. rewrite Hn.
    match goal with
    | |- context [extract_input ?x] =>
        replace (extract_input x) with (Some (VStr tag)) by (symmetry; exact Hx)
    end.
    assert (Ht : pyval_truthy (VStr tag) = true).
    { unfold pyval_truthy, str_truthy. destruct tag; [discriminate|reflexivity]. }
    rewrite Ht. cbn [negb]. rewrite Hp.
    destruct (resolve_proxy_value E name tag); reflexivity.
Qed.

Lemma resolve_proxy_unmatched_returns_tag_witness :
  startswith Scenarios.hash_abc HASH_PREFIX = true
  /\ admin_ticket_fields Scenarios.country_env = Some Scenarios.country_fields
  /\ resolve_proxy_value Scenarios.country_env (Some (s "nosuch")) Scenarios.hash_abc
     = Ok Scenarios.hash_abc [WarnFieldNotFound (Some (s "nosuch"))].
Proof.
  split; [reflexivity|]. split; [reflexivity|].
  apply (proj1 (resolve_proxy_unmatched_returns_tag Scenarios.country_env
                  (Some (s "nosuch")) Scenarios.hash_abc Scenarios.country_fields
                  eq_refl eq_refl)).
  reflexivity.
Defined.

(** C6 (code_bug): [resolve_proxy_value] does throw. For every tagged
    value it raises when the admin ticket fields cannot be fetched, and it
    raises [UnicodeEncodeError] when a choice of the field cannot be UTF-8
    encoded. [selected_value_for] catches this and falls back to the tag,
    but [modal_values_to_fd_ticket] does not, so the wizard submission
    raises before any ticket is posted and keeps the session. *)
Theorem resolve_proxy_raises_uncaught :
  (forall E name tag, startswith tag HASH_PREFIX = true -> admin_ticket_fields E = None ->
     resolve_proxy_value E name tag = Raise HTTPError)
  /\ resolve_proxy_value Scenarios.surrogate_env (Some (s "os")) Scenarios.hash_abc
     = Raise UnicodeEncodeError
  /\ selected_value_for Scenarios.unreachable_env Scenarios.country
       [(s "country", Scenarios.select_entry Scenarios.hash_abc)]
     = Some (VStr Scenarios.hash_abc)
  /\ modal_values_to_fd_ticket Scenarios.unreachable_env Scenarios.cfg0
       [(s "country", Scenarios.select_entry Scenarios.hash_abc)] (Some 7) None
     = Raise HTTPError
  /\ modal_values_to_fd_ticket Scenarios.surrogate_env Scenarios.cfg0
       [(s "os", Scenarios.select_entry Scenarios.hash_abc)] (Some 7) None
     = Raise UnicodeEncodeError
  /\ wizard_submit Scenarios.unreachable_env Scenarios.cfg0 Scenarios.post_42
       Scenarios.notify_ok [(Scenarios.tok, Scenarios.c7_session)] (Some Scenarios.tok)
       (Some 7) [(s "country", Scenarios.select_entry Scenarios.hash_abc)]
       (Some (s "U1")) None
     = (Raise HTTPError, [(Scenarios.tok, Scenarios.c7_session)]).
Proof.
  split.
  - intros E name tag Hp Hadm. unfold resolve_proxy_value. rewrite Hp, Hadm. reflexivity.
  - vm_compute. repeat split; reflexivity.
Qed.

(** ** C7: navigation *)

Lemma lookup_set_session : forall token sess x store,
  lookup token store = Some sess ->
  lookup token (set_session token x store) = Some x.
Proof.
  intros token sess x store. induction store as [|[k v] store IH]; simpl; intro H.
  - discriminate.
  - destruct (pystr_eqb token k) eqn:Hk.
    + apply pystr_eqb_eq in Hk. subst. rewrite pystr_eqb_refl. simpl.
      rewrite pystr_eqb_refl. reflexivity.
    + destruct (pystr_eqb k token) eqn:Hk'.
      * apply pystr_eqb_eq in Hk'. subst. rewrite pystr_eqb_refl in Hk. discriminate.
      * simpl. rewrite Hk. apply IH. exact H.
Qed.

Lemma compute_pages_ok_shape : forall E fm fs V ps l,
  compute_pages E fm fs V = Ok ps l -> exists pre, ps = pre ++ [Core; Terminal].
Proof.
  intros E fm fs V ps l H. unfold compute_pages in H.
  destruct (get_form_detail E (form_id fm)); [|discriminate].
  destruct (traverse _ _ _ _ _) as [? st|]; [|discriminate].
  inversion H. eauto.
Qed.

(** The store left by an update that got through both page computations. *)
Lemma update_wizard_full : forall E forms fs store token newv n sess fm pages l pages2 l2,
  lookup token store = Some sess ->
  find (fun fm => Z.eqb (form_id fm) (sess_ticket_form_id sess)) forms = Some fm ->
  compute_pages E fm fs (dict_merge (sess_values sess) newv) = Ok pages l ->
  compute_pages E fm fs (prune (valid_names fs pages) (dict_merge (sess_values sess) newv))
    = Ok pages2 l2 ->
  let V2 := prune (valid_names fs pages) (dict_merge (sess_values sess) newv) in
  let p := Z.max 0 (Z.min (sess_page sess) (Z.of_nat (List.length pages2) - 1)) in
  update_wizard E forms fs store token newv n
  = set_session token
      {| sess_ticket_form_id := sess_ticket_form_id sess;
         sess_page := nav_step E fs V2 pages2 p n;
         sess_values := V2 |} store.
Proof.
  intros E forms fs store token newv n sess fm pages l pages2 l2 Hs Hf H1 H2 V2 p.
  unfold update_wizard. rewrite Hs. cbv zeta. rewrite Hf, H1.
  cbn [with_values sess_values]. rewrite H2. reflexivity.
Qed.

(** C7 (amended): when an update gets through both page computations, the
    stored index is first clamped to [p] in [[0, len(pages)-1]] against the
    recomputed (pruned) page list; "prev" stores [max(p-1, 0)]; no
    navigation stores [p]; "next" stays at [p] when [p] shows a field page
    whose first matching field has no truthy answer, and otherwise stores
    [min(p+1, len(pages)-1)], so it does not move past the last page. *)
Theorem update_wizard_navigation :
  forall E forms fs store token newv n sess fm pages l pages2 l2,
  lookup token store = Some sess ->
  find (fun fm => Z.eqb (form_id fm) (sess_ticket_form_id sess)) forms = Some fm ->
  compute_pages E fm fs (dict_merge (sess_values sess) newv) = Ok pages l ->
  compute_pages E fm fs (prune (valid_names fs pages) (dict_merge (sess_values sess) newv))
    = Ok pages2 l2 ->
  let V2 := prune (valid_names fs pages) (dict_merge (sess_values sess) newv) in
  let len := Z.of_nat (List.length pages2) in
  let p := Z.max 0 (Z.min (sess_page sess) (len - 1)) in
  0 <= p <= len - 1
  /\ exists sess',
       lookup token (update_wizard E forms fs store token newv n) = Some sess'
       /\ (n = NavPrev -> sess_page sess' = Z.max (p - 1) 0)
       /\ (n = NavNone -> sess_page sess' = p)
       /\ (n = NavNext ->
             (forall fid f,
                nth_error pages2 (Z.to_nat p) = Some (FieldPage fid) ->
                find (fun f => Z.eqb (fld_id f) fid) fs = Some f ->
                selected_value_for E f V2 = None ->
                sess_page sess' = p)
             /\ ((forall fid f,
                    nth_error pages2 (Z.to_nat p) = Some (FieldPage fid) ->
                    find (fun f => Z.eqb (fld_id f) fid) fs = Some f ->
                    selected_value_for E f V2 <> None) ->
                 sess_page sess' = Z.min (p + 1) (len - 1))).
Proof.
  intros E forms fs store token newv n sess fm pages l pages2 l2 Hs Hf H1 H2 V2 len p.
  assert (Hlen : 2 <= len).
  { destruct (compute_pages_ok_shape _ _ _ _ _ _ H2) as [pre Hpre].
    unfold len. rewrite Hpre, length_app. simpl. lia. }
  split; [unfold p; lia|].
  eexists. split.
  { rewrite (update_wizard_full E forms fs store token newv n sess fm pages l pages2 l2
               Hs Hf H1 H2).
    eapply lookup_set_session. exact Hs. }
  cbn [sess_page]. unfold nav_step. fold len. fold V2. fold p.
  split; [intros ->; reflexivity|]. split; [intros ->; reflexivity|].
  intros ->. split.
  - intros fid f Hn Hfd Hsel. rewrite Hn, Hfd, Hsel. reflexivity.
  - intros Hok.
    destruct (nth_error pages2 (Z.to_nat p)) as [[fid| |]|] eqn:Hn; try reflexivity.
    destruct (find (fun f => Z.eqb (fld_id f) fid) fs) as [f|] eqn:Hfd; [|reflexivity].
    destruct (selected_value_for E f V2) eqn:Hsel; [reflexivity|].
    exfalso. exact (Hok fid f eq_refl Hfd Hsel).
Qed.

Lemma update_wizard_navigation_witness :
  lookup Scenarios.tok [(Scenarios.tok, Scenarios.c7_session)] = Some Scenarios.c7_session
  /\ compute_pages Scenarios.country_env Scenarios.country_form Scenarios.country_fields []
     = Ok [FieldPage 1; Core; Terminal] []
  /\ 0 <= Z.max 0 (Z.min 2 (3 - 1)) <= 3 - 1.
Proof.
  split; [reflexivity|]. split; [vm_compute; reflexivity|].
  exact (proj1 (update_wizard_navigation Scenarios.country_env [Scenarios.country_form]
                  Scenarios.country_fields [(Scenarios.tok, Scenarios.c7_session)]
                  Scenarios.tok [] NavNext Scenarios.c7_session Scenarios.country_form
                  [FieldPage 1; Core; Terminal] [] [FieldPage 1; Core; Terminal] []
                  eq_refl eq_refl ltac:(vm_compute; reflexivity)
                  ltac:(vm_compute; reflexivity))).
Defined.

(** C7 (counterexample): "next" on the last page, which is not a field
    page, leaves the index where it is. *)
Lemma update_wizard_next_on_last_page :
  update_wizard Scenarios.country_env [Scenarios.country_form] Scenarios.country_fields
    [(Scenarios.tok, Scenarios.c7_session)] Scenarios.tok [] NavNext
  = [(Scenarios.tok, Scenarios.c7_session)].
Proof. vm_compute. reflexivity. Qed.

(** ** C8: ticket type, subject and description *)

(** The answer of the last entry of [values] whose key satisfies [p]:
    [None] when there is none, [Some v] with [v] its extracted input. *)
Fixpoint last_answer (p : pystr -> bool) (values : answers) : option (option pyval) :=
  match values with
  | [] => None
  | (k, e) :: rest =>
      match last_answer p rest with
      | Some v => Some v
      | None => if p k then Some (extract_input e) else None
      end
  end.

Definition answer_of (p : pystr -> bool) (values : answers) : option pyval :=
  match last_answer p values with Some v => v | None => None end.

Definition is_subject_key (k : pystr) : bool := pystr_eqb k (s "subject").
Definition is_description_key (k : pystr) : bool := pystr_eqb k (s "description").
Definition is_type_key (k : pystr) : bool := str_mem k TYPE_KEYS.

(** A key that goes to [custom_fields]. *)
Definition is_custom_key (k : pystr) : bool :=
  negb (is_subject_key k || is_description_key k || is_type_key k).

Ltac finish_last :=
  unfold is_subject_key, is_description_key, is_type_key in *; simpl;
  repeat match goal with
         | H : ?x = false |- context [?x] => rewrite H
         end;
  repeat split;
  repeat match goal with
         | |- context [last_answer ?p ?l] => destruct (last_answer p l)
         end; reflexivity.

(** What the loop of [modal_values_to_fd_ticket] collects, when it does
    not raise: the last subject, description and type answers. *)
Lemma collect_spec : forall E values acc c logs,
  collect E values acc = Ok c logs ->
  c_subject c = match last_answer is_subject_key values with
                | Some v => v | None => c_subject acc end
  /\ c_description c = match last_answer is_description_key values with
                       | Some v => v | None => c_description acc end
  /\ c_type_field c = match last_answer is_type_key values with
                      | Some v => v | None => c_type_field acc end.
Proof.
  induction values as [|[k e] rest IH]; intros acc c logs H.
  - injection H as <- _. auto.
  - cbn [collect last_answer] in H |- *.
    unfold is_subject_key, is_description_key, is_type_key.
    destruct (pystr_eqb k (s "subject")) eqn:Hs.
    { apply pystr_eqb_eq in Hs. subst k.
      apply IH in H as [H1 [H2 H3]]. rewrite H1, H2, H3. finish_last. }
    destruct (pystr_eqb k (s "description")) eqn:Hd.
    { apply pystr_eqb_eq in Hd. subst k.
      apply IH in H as [H1 [H2 H3]]. rewrite H1, H2, H3. finish_last. }
    destruct (str_mem k TYPE_KEYS) eqn:Ht.
    { apply IH in H as [H1 [H2 H3]]. rewrite H1, H2, H3. finish_last. }
    assert (Hkeep : forall acc' c' logs',
              c_subject acc' = c_subject acc -> c_description acc' = c_description acc ->
              c_type_field acc' = c_type_field acc ->
              collect E rest acc' = Ok c' logs' ->
              c_subject c' = match last_answer is_subject_key rest with
                             | Some v => v | None => c_subject acc end
              /\ c_description c' = match last_answer is_description_key rest with
                                    | Some v => v | None => c_description acc end
              /\ c_type_field c' = match last_answer is_type_key rest with
                                   | Some v => v | None => c_type_field acc end).
    { intros acc' c' logs' E1 E2 E3 Hc. apply IH in Hc as [H1 [H2 H3]].
      rewrite <- E1, <- E2, <- E3. auto. }
    assert (Hsame : forall p, match last_answer p rest with
                              | Some v => Some v | None => None end = last_answer p rest).
    { intros p. destruct (last_answer p rest); reflexivity. }
    cbv beta iota. rewrite !Hsame.
    unfold is_subject_key, is_description_key, is_type_key in Hkeep.
    destruct (extract_input e) as [[x|b]|] eqn:Hx.
    + destruct (pystr_eqb x (s "__noop__")); [(eapply Hkeep; [| | | exact H]; reflexivity)|].
      destruct (startswith x HASH_PREFIX); [|(eapply Hkeep; [| | | exact H]; reflexivity)].
      destruct (resolve_proxy_value E (Some k) x) as [r l|ex]; [|discriminate].
      destruct (collect E rest _) as [c' l'|ex] eqn:Hc'; [|discriminate].
      injection H as <- _. (eapply Hkeep; [| | | exact Hc']; reflexivity).
    + (eapply Hkeep; [| | | exact H]; reflexivity).
    + (eapply Hkeep; [| | | exact H]; reflexivity).
Qed.

(** The loop raises only what the resolver raises on a ["hash:"] answer
    under a custom key. *)
Lemma collect_raise : forall E values acc ex,
  collect E values acc = Raise ex ->
  exists k e x, In (k, e) values /\ is_custom_key k = true
    /\ extract_input e = Some (VStr x) /\ startswith x HASH_PREFIX = true
    /\ resolve_proxy_value E (Some k) x = Raise ex.
Proof.
  induction values as [|[k e] rest IH]; intros acc ex H; [discriminate|].
  cbn [collect] in H.
  destruct (pystr_eqb k (s "subject")) eqn:Hs;
    [destruct (IH _ _ H) as [k' [e' [x' [Hin R]]]]; exists k', e', x'; split; [right|]; auto|].
  destruct (pystr_eqb k (s "description")) eqn:Hd;
    [destruct (IH _ _ H) as [k' [e' [x' [Hin R]]]]; exists k', e', x'; split; [right|]; auto|].
  destruct (str_mem k TYPE_KEYS) eqn:Ht;
    [destruct (IH _ _ H) as [k' [e' [x' [Hin R]]]]; exists k', e', x'; split; [right|]; auto|].
  cbv beta iota in H.
  assert (Htail : forall acc', collect E rest acc' = Raise ex ->
            exists k' e' x', In (k', e') ((k, e) :: rest) /\ is_custom_key k' = true
              /\ extract_input e' = Some (VStr x') /\ startswith x' HASH_PREFIX = true
              /\ resolve_proxy_value E (Some k') x' = Raise ex).
  { intros acc' Hc. destruct (IH _ _ Hc) as [k' [e' [x' [Hin R]]]].
    exists k', e', x'. split; [right|]; auto. }
  destruct (extract_input e) as [[x|b]|] eqn:Hx; [| exact (Htail _ H) | exact (Htail _ H)].
  destruct (pystr_eqb x (s "__noop__")); [exact (Htail _ H)|].
  destruct (startswith x HASH_PREFIX) eqn:Hp; [|exact (Htail _ H)].
  destruct (resolve_proxy_value E (Some k) x) as [r l|ex'] eqn:Hr.
  - destruct (collect E rest _) as [c' l'|ex'] eqn:Hc'; [discriminate|].
    injection H as ->. exact (Htail _ Hc').
  - injection H as ->. exists k, e, x. split; [left; reflexivity|].
    unfold is_custom_key, is_subject_key, is_description_key, is_type_key.
    rewrite Hs, Hd, Ht. auto.
Qed.

Lemma lookup_In_snd : forall {A} k (d : list (pystr * A)) v,
  lookup k d = Some v -> In v (map snd d).
Proof.
  intros A k d v. induction d as [|[k' v'] d IH]; simpl; intro H; [discriminate|].
  destruct (pystr_eqb k k'); [inversion H; auto | right; auto].
Qed.

Lemma form_type_truthy : forall X,
  str_truthy X = true -> str_truthy (get_or (lookup X FORM_NAME_TO_TYPE) X) = true.
Proof.
  intros X HX. destruct (lookup X FORM_NAME_TO_TYPE) as [y|] eqn:Hl; [|exact HX].
  apply lookup_In_snd in Hl. simpl.
  assert (Hall : forallb str_truthy (map snd FORM_NAME_TO_TYPE) = true)
    by (vm_compute; reflexivity).
  rewrite forallb_forall in Hall. exact (Hall y Hl).
Qed.

(** The ticket built from a loop that did not raise. *)
Lemma modal_ticket_of_collect : forall E cfg values tfid email c l,
  collect E values {| c_subject := None; c_description := None;
                      c_type_field := None; c_custom_fields := [] |} = Ok c l ->
  exists t logs,
    modal_values_to_fd_ticket E cfg values tfid email = Ok t logs
    /\ t_subject t = or_default (answer_of is_subject_key values) "New ticket"
    /\ t_description t = or_default (answer_of is_description_key values) "(no description)"
    /\ (opt_truthy (answer_of is_type_key values) = true ->
          t_type t = answer_of is_type_key values)
    /\ (forall i d X,
          opt_truthy (answer_of is_type_key values) = false ->
          tfid = Some i -> i <> 0 ->
          get_form_detail E i = Some d -> fdt_name d = Some X -> str_truthy X = true ->
          t_type t = Some (VStr (get_or (lookup X FORM_NAME_TO_TYPE) X))).
Proof.
  intros E cfg values tfid email c l Hc.
  destruct (collect_spec _ _ _ _ _ Hc) as [H1 [H2 H3]].
  cbn [c_subject c_description c_type_field] in H1, H2, H3.
  fold (answer_of is_subject_key values) in H1.
  fold (answer_of is_description_key values) in H2.
  fold (answer_of is_type_key values) in H3.
  unfold modal_values_to_fd_ticket. rewrite Hc.
  destruct (opt_truthy (c_type_field c)) eqn:Hty.
  - cbn [negb andb]. eexists _, _. split; [reflexivity|].
    cbn [t_subject t_description t_type]. rewrite H1, H2, Hty.
    rewrite H3 in Hty. rewrite Hty.
    repeat split; [intros _; exact H3 | intros; discriminate].
  - rewrite H3 in Hty. cbn [negb andb].
    destruct tfid as [i|].
    + destruct (Z.eqb i 0) eqn:Hi; cbn [negb].
      * eexists _, _. split; [reflexivity|].
        cbn [t_subject t_description t_type]. rewrite H1, H2, H3, Hty.
        repeat split; [intros; discriminate|].
        intros i' d X _ Hs Hne. inversion Hs; subst. apply Z.eqb_eq in Hi. contradiction.
      * cbn [get_or].
        destruct (get_form_detail E i) as [d|] eqn:Hd.
        -- destruct (fdt_name d) as [X|] eqn:Hn.
           ++ eexists _, _. split; [reflexivity|].
              cbn [t_subject t_description t_type]. rewrite H1, H2.
              repeat split; [intros; congruence|].
              intros i' d' X' _ Hs _ Hd' Hn' HX. inversion Hs; subst i'.
              rewrite Hd in Hd'. inversion Hd'; subst d'. rewrite Hn in Hn'.
              inversion Hn'; subst X'.
              unfold opt_truthy, pyval_truthy. rewrite (form_type_truthy X HX).
              reflexivity.
           ++ eexists _, _. split; [reflexivity|].
              cbn [t_subject t_description t_type]. rewrite H1, H2.
              repeat split; [intros; congruence|].
              intros i' d' X' _ Hs _ Hd' Hn' HX. inversion Hs; subst i'. congruence.
        -- eexists _, _. split; [reflexivity|].
           cbn [t_subject t_description t_type]. rewrite H1, H2.
           repeat split; [intros; congruence|].
           intros i' d' X' _ Hs _ Hd' Hn' HX. inversion Hs; subst i'. congruence.
    + eexists _, _. split; [reflexivity|].
      cbn [t_subject t_description t_type]. rewrite H1, H2, H3, Hty.
      repeat split; intros; discriminate.
Qed.

(** C8 (amended): whenever [modal_values_to_fd_ticket] returns a ticket,
    its subject and description are the last answers under those keys, or
    ["New ticket"] and ["(no description)"] when absent or empty; a truthy
    type answer (the last one under ["type"], ["ticket_type"] or
    ["default_ticket_type"]) is the type; otherwise, for a nonzero form id
    whose detail has a non-empty name [X], the type is
    [FORM_NAME_TO_TYPE.get(X, X)]. It returns a ticket whenever every
    ["hash:"] answer under a custom key resolves, in particular when there
    is none; it raises only what [resolve_proxy_value] raises on such an
    answer (the uncaught exception of C6). *)
Theorem modal_ticket_type_and_defaults : forall E cfg values ticket_form_id email,
  ((forall k e x, In (k, e) values -> is_custom_key k = true ->
      extract_input e = Some (VStr x) -> startswith x HASH_PREFIX = true ->
      exists r l, resolve_proxy_value E (Some k) x = Ok r l) ->
   exists t logs, modal_values_to_fd_ticket E cfg values ticket_form_id email = Ok t logs)
  /\ (forall ex, modal_values_to_fd_ticket E cfg values ticket_form_id email = Raise ex ->
        exists k e x, In (k, e) values /\ is_custom_key k = true
          /\ extract_input e = Some (VStr x) /\ startswith x HASH_PREFIX = true
          /\ resolve_proxy_value E (Some k) x = Raise ex)
  /\ (forall t logs, modal_values_to_fd_ticket E cfg values ticket_form_id email = Ok t logs ->
        t_subject t = or_default (answer_of is_subject_key values) "New ticket"
        /\ t_description t = or_default (answer_of is_description_key values) "(no description)"
        /\ (opt_truthy (answer_of is_type_key values) = true ->
              t_type t = answer_of is_type_key values)
        /\ (forall i d X,
              opt_truthy (answer_of is_type_key values) = false ->
              ticket_form_id = Some i -> i <> 0 ->
              get_form_detail E i = Some d -> fdt_name d = Some X -> str_truthy X = true ->
              t_type t = Some (VStr (get_or (lookup X FORM_NAME_TO_TYPE) X)))).
Proof.
  intros E cfg values tfid email.
  destruct (collect E values {| c_subject := None; c_description := None;
                                c_type_field := None; c_custom_fields := [] |})
    as [c l|ex] eqn:Hc.
  - destruct (modal_ticket_of_collect E cfg values tfid email c l Hc)
      as [t [logs [Hm Hprops]]].
    rewrite Hm. split; [intros _; eauto|]. split; [discriminate|].
    intros t' logs' Heq. injection Heq as <- _. exact Hprops.
  - assert (Hm : modal_values_to_fd_ticket E cfg values tfid email = Raise ex)
      by (unfold modal_values_to_fd_ticket; rewrite Hc; reflexivity).
    rewrite Hm. destruct (collect_raise _ _ _ _ Hc) as [k [e [x [Hin [Hk [Hx [Hp Hr]]]]]]].
    split; [|split; [|discriminate]].
    + intros Hall. destruct (Hall k e x Hin Hk Hx Hp) as [r [l' Hr']]. congruence.
    + intros ex' Heq. injection Heq as <-. exists k, e, x. auto.
Qed.

Lemma modal_ticket_type_and_defaults_witness :
  exists t logs,
    modal_values_to_fd_ticket Scenarios.country_env Scenarios.cfg0 [] (Some 7) None = Ok t logs
    /\ t_type t = Some (VStr (get_or (lookup (s "System Access Request") FORM_NAME_TO_TYPE)
                                    (s "System Access Request"))).
Proof.
  destruct (modal_ticket_type_and_defaults Scenarios.country_env Scenarios.cfg0 [] (Some 7) None)
    as [Hok [_ Hprops]].
  destruct Hok as [t [logs Hm]]; [intros k e x []|].
  exists t, logs. split; [exact Hm|].
  destruct (Hprops t logs Hm) as [_ [_ [_ Hinf]]].
  apply (Hinf 7 {| fdt_name := Some (s "System Access Request");
                   fdt_fields := [RInt 1; RInt 2; RInt 3];
                   fdt_section_ids := [Some 11] |});
    [reflexivity | reflexivity | discriminate | reflexivity | reflexivity | reflexivity].
Defined.

(** C8 (counterexample): a form named [""] with no table entry gives a
    ticket without any type rather than type [""]. *)
Lemma modal_ticket_blank_name_counterexample :
  exists t, modal_values_to_fd_ticket Scenarios.blank_name_env Scenarios.cfg0 [] (Some 5) None
            = Ok t [] /\ t_type t = None.
Proof. eexists. split; [vm_compute; reflexivity | reflexivity]. Qed.

(** ** C9: the top-level order and pages rendered once *)

(** Field pages are distinct and visited, and each is a known field that
    is not of the subject or description type. *)
Definition page_inv (fs : list field) (st : wstate) : Prop :=
  NoDup (page_field_ids (w_pages st))
  /\ forall fid, In (FieldPage fid) (w_pages st) ->
       In fid (w_visited st)
       /\ exists f, by_id fs fid = Some f
                    /\ type_is (fld_type f) "default_subject" = false
                    /\ type_is (fld_type f) "default_description" = false.

Lemma page_field_ids_In : forall ps i, In i (page_field_ids ps) <-> In (FieldPage i) ps.
Proof.
  intros ps i. unfold page_field_ids. rewrite in_flat_map. split.
  - intros [p [Hp Hi]]. destruct p; simpl in Hi; try contradiction.
    destruct Hi as [<-|[]]. exact Hp.
  - intro H. exists (FieldPage i). simpl. auto.
Qed.

Lemma page_inv_visit : forall fs fid st, page_inv fs st -> page_inv fs (visit fid st).
Proof.
  intros fs fid st [Hnd Hall]. split; [exact Hnd|].
  intros i Hi. destruct (Hall i Hi) as [Hv Hf]. split; [right; exact Hv | exact Hf].
Qed.

Lemma page_inv_push : forall fs fid st f,
  page_inv fs st -> z_mem fid (w_visited st) = false ->
  by_id fs fid = Some f ->
  type_is (fld_type f) "default_subject" = false ->
  type_is (fld_type f) "default_description" = false ->
  page_inv fs (push fid (visit fid st)).
Proof.
  intros fs fid st f [Hnd Hall] Hnv Hby Ht1 Ht2. split.
  - cbn [push visit w_pages]. rewrite page_field_ids_app. simpl.
    apply NoDup_app; [exact Hnd | constructor; [intros []|constructor] |].
    intros x Hx [<-|[]]. apply page_field_ids_In in Hx.
    destruct (Hall fid Hx) as [Hv _]. apply z_mem_In in Hv. congruence.
  - cbn [push visit w_pages w_visited]. intros i Hi. apply in_app_or in Hi as [Hi|[Hi|[]]].
    + destruct (Hall i Hi) as [Hv Hf]. split; [right; exact Hv | exact Hf].
    + inversion Hi; subst i. split; [left; reflexivity|]. exists f. auto.
Qed.

Section Invariant.

Variable E : env.
Variable fs : list field.
Variable V : answers.
Variable fsi : list (option Z).

Definition inv_step (a b : wstate) : Prop := page_inv fs a -> page_inv fs b.

Lemma inv_step_refl : forall a, inv_step a a.
Proof. intros a H. exact H. Qed.

Lemma inv_step_trans : forall a b c, inv_step a b -> inv_step b c -> inv_step a c.
Proof. intros a b c H1 H2 H. auto. Qed.

Lemma add_inv : forall n fid st r st',
  add_field_and_children E fs V fsi n fid st = WDone r st' -> inv_step st st'.
Proof.
  induction n as [|n IH]; simpl; intros fid st r st' H; [discriminate|].
  destruct (z_mem fid (w_visited st)) eqn:Hv; [inversion H; subst; apply inv_step_refl|].
  destruct (by_id fs fid) as [f|] eqn:Hby;
    [|inversion H; subst; intro; apply page_inv_visit; assumption].
  destruct (type_is (fld_type f) "default_subject" || type_is (fld_type f) "default_description")
    eqn:Ht; [inversion H; subst; intro; apply page_inv_visit; assumption|].
  apply orb_false_iff in Ht as [Ht1 Ht2].
  destruct (to_slack_block _) as [m|]; [|discriminate].
  destruct (normalize_blocks m) as [|b bs];
    [inversion H; subst; intro; apply page_inv_visit; assumption|].
  assert (G : inv_step st (push fid (visit fid st)))
    by (intro Hi; eapply page_inv_push; eassumption).
  destruct (negb _).
  - destruct (selected_value_for E f V) as [sel|]; [|inversion H; subst; exact G].
    apply inv_step_trans with (push fid (visit fid st)); [exact G|].
    eapply seq_until_inv; [exact inv_step_refl | exact inv_step_trans | | exact H].
    intros sec s0 r0 s1 Hs. eapply section_step_inv;
      [exact inv_step_refl | exact inv_step_trans | | exact Hs].
    intros. eapply IH. eassumption.
  - inversion H; subst. exact G.
Qed.

End Invariant.

Lemma traverse_inv : forall E d fm fs V r st,
  traverse E d fm fs V = WDone r st -> page_inv fs st.
Proof.
  intros E d fm fs V r st H. unfold traverse in H.
  refine (seq_until_inv (inv_step fs) _ (inv_step_refl fs) (inv_step_trans fs) _ _ _ _ _ H _).
  - intros. eapply add_inv. eassumption.
  - split; [constructor | intros fid []].
Qed.

Lemma compute_pages_inv : forall E fm fs V pages l,
  compute_pages E fm fs V = Ok pages l ->
  exists st, pages = w_pages st ++ [Core; Terminal] /\ page_inv fs st.
Proof.
  intros E fm fs V pages l H. unfold compute_pages in H.
  destruct (get_form_detail E (form_id fm)) as [d|]; [|discriminate].
  destruct (traverse E d fm fs V) as [r st|] eqn:Ht; [|discriminate].
  inversion H; subst. exists st. split; [reflexivity|]. eapply traverse_inv. exact Ht.
Qed.

Lemma dependent_field_ids_In : forall fs fid,
  In fid (dependent_field_ids fs)
  <-> exists g dep, In g fs /\ In dep (fld_dependent_fields g) /\ dep_id dep = Some fid.
Proof.
  intros fs fid. unfold dependent_field_ids. rewrite in_flat_map. split.
  - intros [g [Hg Hin]]. rewrite in_flat_map in Hin. destruct Hin as [dep [Hd Hi]].
    destruct (dep_id dep) as [i|] eqn:Hid; [|contradiction].
    destruct Hi as [<-|[]]. exists g, dep. auto.
  - intros [g [dep [Hg [Hd Hid]]]]. exists g. split; [exact Hg|].
    rewrite in_flat_map. exists dep. rewrite Hid. simpl. auto.
Qed.

Lemma conditional_children_In : forall E fsi ids fid,
  In fid (conditional_children E fsi ids)
  <-> exists p sec sid, In p ids /\ In sec (get_sections_cached E p)
                        /\ sec_id sec = Some sid /\ in_section_ids sid fsi = true
                        /\ In fid (normalize_id_list (sec_fields sec)).
Proof.
  intros E fsi ids fid. unfold conditional_children. rewrite in_flat_map. split.
  - intros [p [Hp Hin]]. rewrite in_flat_map in Hin. destruct Hin as [sec [Hs Hi]].
    destruct (sec_id sec) as [sid|] eqn:Hsid; [|contradiction].
    destruct (in_section_ids sid fsi) eqn:Hin; [|contradiction].
    exists p, sec, sid. auto.
  - intros [p [sec [sid [Hp [Hs [Hsid [Hin Hi]]]]]]]. exists p. split; [exact Hp|].
    rewrite in_flat_map. exists sec. rewrite Hsid, Hin. auto.
Qed.

Lemma section_orphan_false : forall fs fsi fid,
  section_orphan fs fsi fid = false
  <-> forall f, by_id fs fid = Some f ->
        fld_section_mappings f = []
        \/ exists sid, In (Some sid) (fld_section_mappings f) /\ in_section_ids sid fsi = true.
Proof.
  intros fs fsi fid. unfold section_orphan.
  destruct (by_id fs fid) as [f|].
  - destruct (fld_section_mappings f) as [|m ms] eqn:Hm.
    + split; [intros _ f' Hf; inversion Hf; subst; left; exact Hm | reflexivity].
    + rewrite negb_false_iff, existsb_exists. split.
      * intros [o [Ho Hs]] f' Hf. inversion Hf; subst f'. right. rewrite Hm.
        destruct o as [sid|]; [|discriminate]. exists sid. auto.
      * intros H. destruct (H f eq_refl) as [Hnil | [sid [Hin Hs]]]; [congruence|].
        rewrite Hm in Hin. exists (Some sid). auto.
  - split; [intros _ f Hf; discriminate | reflexivity].
Qed.

Lemma skip_unlinked_required_false : forall fs cond fid,
  ~ In fid cond ->
  skip_unlinked_required fs (dependent_field_ids fs ++ cond) fid = false
  <-> (exists g dep, In g fs /\ In dep (fld_dependent_fields g) /\ dep_id dep = Some fid)
      \/ forall f, by_id fs fid = Some f ->
           fld_dependent_fields f <> []
           \/ fld_required_for_customers f && negb (fld_required_for_agents f) = false.
Proof.
  intros fs cond fid Hnc. unfold skip_unlinked_required.
  rewrite <- dependent_field_ids_In.
  destruct (z_mem fid (dependent_field_ids fs ++ cond)) eqn:Hz.
  - apply z_mem_In, in_app_or in Hz. split; [intros _|reflexivity].
    destruct Hz as [Hz|Hz]; [left; exact Hz | contradiction].
  - assert (Hnd : ~ In fid (dependent_field_ids fs)).
    { intro Hd. assert (Hin : In fid (dependent_field_ids fs ++ cond))
        by (apply in_or_app; left; exact Hd).
      apply z_mem_In in Hin. congruence. }
    destruct (by_id fs fid) as [f|].
    + destruct (fld_dependent_fields f) as [|dp dps] eqn:Hd.
      * split.
        -- intro H. right. intros f' Hf. inversion Hf; subst f'. right. exact H.
        -- intros [H|H]; [contradiction|].
           destruct (H f eq_refl) as [H'|H']; [contradiction | exact H'].
      * split; [intros _; right; intros f' Hf; inversion Hf; subst f'; left; congruence
               | reflexivity].
    + split; [intros _; right; intros f Hf; discriminate | reflexivity].
Qed.

(** C9 (amended): a listed field id [fid] stays in the top-level order
    exactly when (1) no conditional section of a listed field belonging to
    the form lists it as a child, (2) its field has no section mappings or
    one of them is a section of the form, and (3) some dependency
    references it, or its field has dependent fields of its own, or it is
    not required for customers only. Whatever the answers, every field id
    gets at most one page. *)
Theorem top_level_order_filters : forall E d fm fs,
  (forall fid,
     In fid (top_level_order E d fm fs)
     <-> In fid (normalize_id_list (raw_field_ids d fm))
         /\ ~ (exists p sec sid,
                 In p (normalize_id_list (raw_field_ids d fm))
                 /\ In sec (get_sections_cached E p)
                 /\ sec_id sec = Some sid /\ in_section_ids sid (fdt_section_ids d) = true
                 /\ In fid (normalize_id_list (sec_fields sec)))
         /\ (forall f, by_id fs fid = Some f ->
               fld_section_mappings f = []
               \/ exists sid, In (Some sid) (fld_section_mappings f)
                              /\ in_section_ids sid (fdt_section_ids d) = true)
         /\ ((exists g dep, In g fs /\ In dep (fld_dependent_fields g) /\ dep_id dep = Some fid)
             \/ forall f, by_id fs fid = Some f ->
                  fld_dependent_fields f <> []
                  \/ fld_required_for_customers f && negb (fld_required_for_agents f) = false))
  /\ (forall V pages l, compute_pages E fm fs V = Ok pages l -> NoDup (page_field_ids pages)).
Proof.
  intros E d fm fs. split.
  - intro fid. unfold top_level_order. cbv zeta.
    rewrite filter_In, filter_In, andb_true_iff, !negb_true_iff.
    rewrite <- conditional_children_In, <- section_orphan_false.
    set (cond := conditional_children E (fdt_section_ids d)
                   (normalize_id_list (raw_field_ids d fm))).
    assert (Hz : z_mem fid cond = false <-> ~ In fid cond).
    { rewrite <- z_mem_In. destruct (z_mem fid cond); split; congruence. }
    split.
    + intros [[Hin [Hc Ho]] Hs]. apply Hz in Hc.
      split; [exact Hin|]. split; [exact Hc|]. split; [exact Ho|].
      apply (skip_unlinked_required_false fs cond fid Hc). exact Hs.
    + intros [Hin [Hc [Ho Hs]]].
      split; [split; [exact Hin | split; [apply Hz; exact Hc | exact Ho]]|].
      apply (skip_unlinked_required_false fs cond fid Hc). exact Hs.
  - intros V pages l H. apply compute_pages_inv in H as [st [-> [Hnd _]]].
    rewrite page_field_ids_app. simpl. rewrite app_nil_r. exact Hnd.
Qed.

Lemma top_level_order_filters_witness :
  compute_pages Scenarios.nested_env Scenarios.nested_form Scenarios.nested_fields []
  = Ok [FieldPage 100; Core; Terminal] []
  /\ NoDup (page_field_ids [FieldPage 100; Core; Terminal]).
Proof.
  assert (H : compute_pages Scenarios.nested_env Scenarios.nested_form Scenarios.nested_fields []
              = Ok [FieldPage 100; Core; Terminal] []) by (vm_compute; reflexivity).
  split; [exact H|].
  exact (proj2 (top_level_order_filters Scenarios.nested_env Scenarios.nested_detail
                  Scenarios.nested_form Scenarios.nested_fields) [] _ [] H).
Defined.

(** C9 (counterexample): the container of the nested-field test is
    required for customers only and no dependency references it, yet it
    stays in the top-level order, because it has dependent fields of its
    own. *)
Lemma top_level_order_keeps_unreferenced_required :
  top_level_order Scenarios.nested_env Scenarios.nested_detail Scenarios.nested_form
    Scenarios.nested_fields = [100]
  /\ dependent_field_ids Scenarios.nested_fields = [10; 11]
  /\ conditional_children Scenarios.nested_env [] [100] = []
  /\ (exists f, by_id Scenarios.nested_fields 100 = Some f
                /\ fld_required_for_customers f = true
                /\ fld_required_for_agents f = false).
Proof.
  split; [vm_compute; reflexivity|]. split; [reflexivity|]. split; [reflexivity|].
  eexists. split; [reflexivity|]. split; reflexivity.
Qed.

(** ** C10: the answers kept by an update *)

Lemma update_wizard_pruned : forall E forms fs store token newv n sess fm pages l,
  lookup token store = Some sess ->
  find (fun fm => Z.eqb (form_id fm) (sess_ticket_form_id sess)) forms = Some fm ->
  compute_pages E fm fs (dict_merge (sess_values sess) newv) = Ok pages l ->
  exists sess', lookup token (update_wizard E forms fs store token newv n) = Some sess'
    /\ sess_values sess' = prune (valid_names fs pages) (dict_merge (sess_values sess) newv).
Proof.
  intros E forms fs store token newv n sess fm pages l Hs Hf H1.
  unfold update_wizard. rewrite Hs. cbv zeta. rewrite Hf, H1.
  destruct (compute_pages E fm fs
              (prune (valid_names fs pages) (dict_merge (sess_values sess) newv)))
    as [pages2 l2|e];
    (eexists; split; [eapply lookup_set_session; exact Hs | reflexivity]).
Qed.

Lemma core_name_not_valid : forall E fm fs V pages l name ty,
  compute_pages E fm fs V = Ok pages l ->
  (forall f, In f fs -> fld_name f = Some (s name) -> type_is (fld_type f) ty = true) ->
  (ty = "default_subject" \/ ty = "default_description")%string ->
  ~ In (s name) (valid_names fs pages).
Proof.
  intros E fm fs V pages l name ty H Hty Hcore Hin.
  apply compute_pages_inv in H as [st [-> [_ Hall]]].
  apply valid_names_spec in Hin as [fid [f [Hp [Hby [Hn _]]]]].
  apply in_app_or in Hp as [Hp|[Hp|[Hp|[]]]]; try discriminate.
  destruct (Hall fid Hp) as [_ [f' [Hby' [T1 T2]]]].
  rewrite Hby in Hby'. inversion Hby'; subst f'.
  apply by_id_spec in Hby as [Hf _].
  specialize (Hty f Hf Hn).
  destruct Hcore as [->| ->]; congruence.
Qed.

(** C10 (amended): when the session exists, its form is found and the
    first page computation succeeds, the stored answers after the update
    are exactly the merged answers whose key is the non-empty name of the
    field of some field page of that page list; so ["subject"] and
    ["description"] are dropped whenever every field bearing that name has
    the subject (resp. description) type, which never gets a page. *)
Theorem update_wizard_keeps_page_answers :
  forall E forms fs store token newv n sess fm pages l,
  lookup token store = Some sess ->
  find (fun fm => Z.eqb (form_id fm) (sess_ticket_form_id sess)) forms = Some fm ->
  compute_pages E fm fs (dict_merge (sess_values sess) newv) = Ok pages l ->
  exists sess',
    lookup token (update_wizard E forms fs store token newv n) = Some sess'
    /\ (forall k e,
          In (k, e) (sess_values sess')
          <-> In (k, e) (dict_merge (sess_values sess) newv)
              /\ exists fid f, In (FieldPage fid) pages /\ by_id fs fid = Some f
                               /\ fld_name f = Some k /\ str_truthy k = true)
    /\ ((forall f, In f fs -> fld_name f = Some (s "subject") ->
                   type_is (fld_type f) "default_subject" = true) ->
        lookup (s "subject") (sess_values sess') = None)
    /\ ((forall f, In f fs -> fld_name f = Some (s "description") ->
                   type_is (fld_type f) "default_description" = true) ->
        lookup (s "description") (sess_values sess') = None).
Proof.
  intros E forms fs store token newv n sess fm pages l Hs Hf H1.
  destruct (update_wizard_pruned E forms fs store token newv n sess fm pages l Hs Hf H1)
    as [sess' [Hl Hv]].
  exists sess'. split; [exact Hl|]. rewrite Hv. split; [|split].
  - intros k e. rewrite <- valid_names_spec. split.
    + apply prune_In.
    + intros [Hin Hk]. unfold prune. apply filter_In. split; [exact Hin|].
      apply str_mem_In. exact Hk.
  - intro Hty. rewrite prune_lookup.
    destruct (str_mem (s "subject") (valid_names fs pages)) eqn:Hm; [|reflexivity].
    apply str_mem_In in Hm. exfalso.
    exact (core_name_not_valid E fm fs _ pages l "subject" "default_subject" H1 Hty
             (or_introl eq_refl) Hm).
  - intro Hty. rewrite prune_lookup.
    destruct (str_mem (s "description") (valid_names fs pages)) eqn:Hm; [|reflexivity].
    apply str_mem_In in Hm. exfalso.
    exact (core_name_not_valid E fm fs _ pages l "description" "default_description" H1 Hty
             (or_intror eq_refl) Hm).
Qed.

Lemma update_wizard_keeps_page_answers_witness :
  lookup Scenarios.tok [(Scenarios.tok, Scenarios.c10_session)] = Some Scenarios.c10_session
  /\ compute_pages Scenarios.country_env Scenarios.country_form Scenarios.country_fields
       (dict_merge [] Scenarios.c10_new)
     = Ok [FieldPage 1; FieldPage 2; Core; Terminal] []
  /\ exists sess',
       lookup Scenarios.tok
         (update_wizard Scenarios.country_env [Scenarios.country_form] Scenarios.country_fields
            [(Scenarios.tok, Scenarios.c10_session)] Scenarios.tok Scenarios.c10_new NavNone)
       = Some sess'
       /\ lookup (s "subject") (sess_values sess') = None.
Proof.
  assert (H1 : compute_pages Scenarios.country_env Scenarios.country_form
                 Scenarios.country_fields (dict_merge [] Scenarios.c10_new)
               = Ok [FieldPage 1; FieldPage 2; Core; Terminal] []) by (vm_compute; reflexivity).
  split; [reflexivity|]. split; [exact H1|].
  destruct (update_wizard_keeps_page_answers Scenarios.country_env [Scenarios.country_form]
              Scenarios.country_fields [(Scenarios.tok, Scenarios.c10_session)] Scenarios.tok
              Scenarios.c10_new NavNone Scenarios.c10_session Scenarios.country_form
              [FieldPage 1; FieldPage 2; Core; Terminal] [] eq_refl eq_refl H1)
    as [sess' [Hl [_ [Hsub _]]]].
  exists sess'. split; [exact Hl|]. apply Hsub.
  intros f Hin Hn. cbv [Scenarios.country_fields In] in Hin.
  destruct Hin as [<-|[<-|[<-|[]]]]; vm_compute in Hn; try discriminate; reflexivity.
Defined.

(** C10 (counterexample): when the session's form is not among the
    forms, the update stops after storing the merged answers, and the
    core page's ["subject"] answer survives it. *)
Lemma update_wizard_form_missing_keeps_subject :
  update_wizard Scenarios.country_env [] Scenarios.country_fields
    [(Scenarios.tok, Scenarios.c10_session)] Scenarios.tok Scenarios.c10_new NavNone
  = [(Scenarios.tok, {| sess_ticket_form_id := 7; sess_page := 0;
                        sess_values := Scenarios.c10_new |})]
  /\ lookup (s "subject") Scenarios.c10_new = Some (Scenarios.text_entry "Printer").
Proof. split; vm_compute; reflexivity. Qed.

(* ------------------------------------------------------------------ *)
(** * Further properties of the code *)

(** No two consecutive dashes. *)
Fixpoint no_double_dash (x : pystr) : bool :=
  match x with
  | a :: ((b :: _) as r) => negb ((a =? 45) && (b =? 45)) && no_double_dash r
  | _ => true
  end.

Definition slug_char (c : Z) : Prop :=
  (97 <= c <= 122) \/ (48 <= c <= 57) \/ c = 45.

Lemma no_double_dash_cons : forall a b t,
  no_double_dash (a :: b :: t) = negb ((a =? 45) && (b =? 45)) && no_double_dash (b :: t).
Proof. reflexivity. Qed.

Lemma sub_space_runs_dash : forall l b,
  Forall (fun c => c <> 45) l ->
  no_double_dash (sub_space_runs [45] b l) = true
  /\ (b = true -> hd_error (sub_space_runs [45] b l) <> Some 45).
Proof.
  induction l as [|c r IH]; intros b Hl; simpl; [split; [reflexivity | discriminate]|].
  inversion Hl as [|? ? Hc Hr]; subst.
  destruct (py_isspace c).
  - destruct b.
    + apply IH; exact Hr.
    + destruct (IH true Hr) as [Hn Hh]. split; [|discriminate].
      cbn [app]. destruct (sub_space_runs [45] true r) as [|d t] eqn:E; [reflexivity|].
      rewrite no_double_dash_cons, Hn, andb_true_r.
      assert (d <> 45) by (intro; apply (Hh eq_refl); simpl; congruence).
      apply negb_true_iff, andb_false_iff. right. apply Z.eqb_neq. exact H.
  - destruct (IH false Hr) as [Hn _]. split.
    + destruct (sub_space_runs [45] false r) as [|d t]; [reflexivity|].
      rewrite no_double_dash_cons, Hn, andb_true_r.
      apply negb_true_iff, andb_false_iff. left. apply Z.eqb_neq. exact Hc.
    + intros _. simpl. congruence.
Qed.

Lemma sub_space_runs_chars : forall (P : Z -> Prop) rep l b,
  Forall P rep -> Forall (fun c => py_isspace c = false -> P c) l ->
  Forall P (sub_space_runs rep b l).
Proof.
  intros P rep l. induction l as [|c r IH]; intros b Hrep Hl; simpl; [constructor|].
  inversion Hl as [|? ? Hc Hr]; subst.
  destruct (py_isspace c) eqn:Hs.
  - destruct b; [apply IH; assumption|]. apply Forall_app. split; [exact Hrep | apply IH; assumption].
  - constructor; [apply Hc; reflexivity | apply IH; assumption].
Qed.

(** [slug] returns only lowercase ASCII letters, digits and dashes, and never two dashes in a row. *)
Theorem slug_charset : forall (py_lower : pystr -> pystr) (x : option pystr),
  Forall slug_char (slug py_lower x) /\ no_double_dash (slug py_lower x) = true.
Proof.
  intros py_lower x. unfold slug.
  set (l := filter slug_keep _).
  assert (Hl : Forall (fun c => slug_keep c = true) l).
  { apply Forall_forall. intros c Hc. apply filter_In in Hc. apply Hc. }
  split.
  - apply sub_space_runs_chars.
    + constructor; [unfold slug_char; lia | constructor].
    + eapply Forall_impl; [|exact Hl]. intros c Hk Hsp. unfold slug_keep in Hk.
      unfold slug_char.
      destruct (Z.eq_dec c 32) as [Hc|Hne]; [subst c; discriminate|].
      rewrite !orb_true_iff, !andb_true_iff, !Z.leb_le in Hk. lia.
  - apply sub_space_runs_dash. eapply Forall_impl; [|exact Hl].
    intros c Hk Hc. subst c. discriminate.
Qed.

Lemma lookup_In_pair : forall {A} k (d : list (pystr * A)) v,
  lookup k d = Some v -> In (k, v) d.
Proof.
  intros A k d v. induction d as [|[k' v'] d IH]; simpl; intro H; [discriminate|].
  destruct (pystr_eqb k k') eqn:Hk; [apply pystr_eqb_eq in Hk; subst; inversion H; subst; auto|].
  right; auto.
Qed.

Lemma lookup_None_notin : forall {A} k (d : list (pystr * A)) v,
  lookup k d = None -> ~ In (k, v) d.
Proof.
  intros A k d v. induction d as [|[k' v'] d IH]; simpl; intros H Hin; [exact Hin|].
  destruct (pystr_eqb k k') eqn:Hk; [discriminate|].
  destruct Hin as [Heq|Hin]; [|exact (IH H Hin)].
  inversion Heq; subst. rewrite pystr_eqb_refl in Hk. discriminate.
Qed.

Lemma dict_last_keyed_Some : forall (key : form -> pystr) k forms f,
  dict_last k (map (fun g => (key g, g)) forms) = Some f -> In f forms /\ key f = k.
Proof.
  intros key k forms f H. apply lookup_In_pair in H. apply in_rev in H.
  apply in_map_iff in H as [g [Hg Hin]]. inversion Hg; subst. auto.
Qed.

Lemma dict_last_keyed_None : forall (key : form -> pystr) k forms f,
  dict_last k (map (fun g => (key g, g)) forms) = None -> In f forms -> key f <> k.
Proof.
  intros key k forms f H Hin Hk. apply (lookup_None_notin _ _ f) in H. apply H.
  subst k. apply (proj1 (in_rev _ _)), in_map_iff. exists f. auto.
Qed.

Lemma fuzzy_pick_spec : forall pool ts seen,
  NoDup (map form_id (fuzzy_pick pool ts seen))
  /\ forall g, In g (fuzzy_pick pool ts seen) -> In g (map snd pool) /\ ~ In (form_id g) seen.
Proof.
  intros pool ts. induction ts as [|t ts IH]; intros seen; simpl.
  - split; [constructor | intros g []].
  - destruct (find _ pool) as [[sl f]|] eqn:Hf; [|apply IH].
    apply find_some in Hf as [Hin Hc]. cbn [fst snd] in Hc.
    rewrite !andb_true_iff, negb_true_iff in Hc. destruct Hc as [_ Hns].
    assert (Hns' : ~ In (form_id f) seen) by (intro H; apply z_mem_In in H; congruence).
    destruct (IH (form_id f :: seen)) as [Hnd Hall]. split.
    + simpl. constructor; [|exact Hnd].
      intro H. apply in_map_iff in H as [g [Hg Hgin]]. destruct (Hall g Hgin) as [_ Hn].
      apply Hn. left. symmetry. exact Hg.
    + intros g [<-|Hg].
      * split; [apply in_map_iff; exists (sl, f); auto | exact Hns'].
      * destruct (Hall g Hg) as [Hp Hn]. split; [exact Hp | intro; apply Hn; right; assumption].
Qed.

(** The fuzzy stage of [filter_portal_forms] never picks two forms with the same id. *)
Theorem fuzzy_pick_distinct_ids : forall pool targets,
  NoDup (map form_id (fuzzy_pick pool targets [])).
Proof. intros. apply fuzzy_pick_spec. Qed.

Lemma keyed_flat_map_In : forall (key : form -> pystr) ks forms g,
  In g (flat_map (fun k => match dict_last k (map (fun f => (key f, f)) forms) with
                           | Some f => [f] | None => [] end) ks)
  <-> exists k, In k ks /\ dict_last k (map (fun f => (key f, f)) forms) = Some g.
Proof.
  intros key ks forms g. rewrite in_flat_map. split.
  - intros [k [Hk Hg]]. destruct (dict_last k _) as [f|] eqn:Hd; [|contradiction].
    destruct Hg as [<-|[]]. eauto.
  - intros [k [Hk Hd]]. exists k. rewrite Hd. split; [exact Hk | left; reflexivity].
Qed.

Lemma keyed_flat_map_incl : forall (key : form -> pystr) ks forms,
  incl (flat_map (fun k => match dict_last k (map (fun f => (key f, f)) forms) with
                           | Some f => [f] | None => [] end) ks) forms.
Proof.
  intros key ks forms g Hg. apply keyed_flat_map_In in Hg as [k [_ Hd]].
  apply dict_last_keyed_Some in Hd. apply Hd.
Qed.

(** [filter_portal_forms] keeps only forms it was given, and returns nothing only when it was given nothing. *)
Theorem filter_portal_forms_subset : forall py_lower allowed order forms,
  incl (filter_portal_forms py_lower allowed order forms) forms
  /\ (filter_portal_forms py_lower allowed order forms = [] <-> forms = []).
Proof.
  intros py_lower allowed order forms.
  assert (Hincl : incl (filter_portal_forms py_lower allowed order forms) forms).
  { unfold filter_portal_forms. destruct allowed as [|a al].
    - match goal with |- incl (match ?e with _ => _ end) _ => destruct e as [|x xs] eqn:Hex end.
      + match goal with |- incl (match ?e with _ => _ end) _ => destruct e as [|y ys] eqn:Hfz end.
        * apply incl_refl.
        * rewrite <- Hfz. intros g Hg. apply fuzzy_pick_spec in Hg as [Hg _].
          rewrite map_map, map_id in Hg. exact Hg.
      + rewrite <- Hex. apply keyed_flat_map_incl.
    - match goal with |- incl (match ?e with _ => _ end) _ => destruct e as [|x xs] eqn:Hex end.
      + apply incl_refl.
      + rewrite <- Hex. apply keyed_flat_map_incl. }
  split; [exact Hincl|]. split.
  - intro H. unfold filter_portal_forms in H. destruct allowed as [|a al].
    + destruct (flat_map _ _) as [|x xs]; [|discriminate].
      destruct (fuzzy_pick _ _ _); [exact H | discriminate].
    + destruct (flat_map _ _); [exact H | discriminate].
  - intros ->. destruct (filter_portal_forms py_lower allowed order []) as [|g r] eqn:H;
      [reflexivity|]. destruct (Hincl g); left; reflexivity.
Qed.

(** With a non-empty [allowed_form_ids], [filter_portal_forms] either falls back to all forms, when no form id is listed, or returns a non-empty list of forms whose ids are listed, covering every listed id of a form. *)
Theorem filter_portal_forms_allowed_ids : forall py_lower a al order forms,
  let r := filter_portal_forms py_lower (a :: al) order forms in
  (r = forms /\ forall f, In f forms -> ~ In (z_str (form_id f)) (a :: al))
  \/ (r <> []
      /\ (forall g, In g r -> In g forms /\ In (z_str (form_id g)) (a :: al))
      /\ (forall f, In f forms -> In (z_str (form_id f)) (a :: al) ->
            exists g, In g r /\ z_str (form_id g) = z_str (form_id f))).
Proof.
  intros py_lower a al order forms r. subst r. unfold filter_portal_forms.
  set (key := fun f => z_str (form_id f)).
  change (fun f => (z_str (form_id f), f)) with (fun f => (key f, f)).
  destruct (flat_map _ (a :: al)) as [|x xs] eqn:Hfl.
  - left. split; [reflexivity|]. intros f Hf Hin.
    destruct (dict_last (key f) (map (fun g => (key g, g)) forms)) as [g|] eqn:Hd.
    + assert (Hg : In g (flat_map (fun k => match dict_last k (map (fun f => (key f, f)) forms) with
                           | Some f => [f] | None => [] end) (a :: al)))
        by (apply keyed_flat_map_In; exists (key f); auto).
      rewrite Hfl in Hg. exact Hg.
    + exact (dict_last_keyed_None key (key f) forms f Hd Hf eq_refl).
  - right. rewrite <- Hfl. split; [rewrite Hfl; discriminate|]. split.
    + intros g Hg. apply keyed_flat_map_In in Hg as [k [Hk Hd]].
      apply dict_last_keyed_Some in Hd as [Hin Hkey]. split; [exact Hin|].
      fold (key g). rewrite Hkey. exact Hk.
    + intros f Hf Hin.
      destruct (dict_last (key f) (map (fun g => (key g, g)) forms)) as [g|] eqn:Hd.
      * exists g. split; [apply keyed_flat_map_In; exists (key f); auto|].
        apply dict_last_keyed_Some in Hd. apply Hd.
      * exfalso. exact (dict_last_keyed_None key (key f) forms f Hd Hf eq_refl).
Qed.

Lemma proxy_value_length : forall raw v,
  proxy_value_if_needed raw = Some v -> (List.length v <= 150)%nat.
Proof.
  intros raw v. unfold proxy_value_if_needed.
  destruct (Nat.leb_spec (List.length raw) 150) as [Hle|Hgt].
  - intro H. inversion H; subst. exact Hle.
  - destruct (utf8_encode raw) as [b|]; [|discriminate]. intro H. injection H as <-.
    cbn [List.length]. rewrite hexdigest_length. lia.
Qed.

Lemma proxy_value_None : forall raw,
  proxy_value_if_needed raw = None <-> (150 < List.length raw)%nat /\ utf8_encode raw = None.
Proof.
  intro raw. unfold proxy_value_if_needed.
  destruct (Nat.leb_spec (List.length raw) 150) as [Hle|Hgt].
  - split; [discriminate | lia].
  - destruct (utf8_encode raw); split; try discriminate; auto. intros [_ H]. discriminate.
Qed.

Lemma options_of_items_cons : forall val lbl rest,
  options_of_items ((val, lbl) :: rest)
  = match proxy_value_if_needed val with
    | None => None
    | Some v =>
        match options_of_items rest with
        | None => None
        | Some opts =>
            Some ({| opt_text := firstn 75 (if str_truthy (py_strip val) then val else lbl);
                     opt_value := v |} :: opts)
        end
    end.
Proof. reflexivity. Qed.

(** [choices_to_slack_options] gives one option per choice item, whose value is [proxy_value_if_needed] of the item's value, with a text of at most 75 code points and a value of at most 150; it raises ([None]) exactly when some item's value is longer than 150 code points and cannot be UTF-8 encoded. *)
Theorem choices_to_slack_options_limits : forall c,
  (forall opts, choices_to_slack_options c = Some opts ->
     map (fun o => Some (opt_value o)) opts
       = map (fun vl => proxy_value_if_needed (fst vl)) (iter_choice_items c)
     /\ List.length opts = List.length (iter_choice_items c)
     /\ Forall (fun o => (List.length (opt_text o) <= 75)%nat
                         /\ (List.length (opt_value o) <= 150)%nat) opts)
  /\ (choices_to_slack_options c = None
      <-> exists v l, In (v, l) (iter_choice_items c)
                      /\ (150 < List.length v)%nat /\ utf8_encode v = None).
Proof.
  intro c. unfold choices_to_slack_options. induction (iter_choice_items c) as [|[v l] items IH].
  - split; [|split; [discriminate | intros [? [? [[] _]]]]].
    intros opts H. injection H as <-. repeat constructor.
  - destruct IH as [IHs IHn]. rewrite options_of_items_cons.
    destruct (proxy_value_if_needed v) as [pv|] eqn:Hpv.
    + destruct (options_of_items items) as [opts'|] eqn:Ho.
      * split.
        -- intros opts H. injection H as <-. destruct (IHs opts' eq_refl) as [Hm [Hl Hf]].
           split; [|split; [|constructor; [split | exact Hf]]].
           ++ simpl. rewrite Hpv, Hm. reflexivity.
           ++ simpl. rewrite Hl. reflexivity.
           ++ change (List.length (firstn 75 (if str_truthy (py_strip v) then v else l)) <= 75)%nat.
              apply firstn_le_length.
           ++ apply (proxy_value_length v). exact Hpv.
        -- split; [discriminate|]. intros [v' [l' [[Heq|Hin] Hb]]].
           ++ injection Heq as -> ->. apply proxy_value_None in Hb. congruence.
           ++ assert (Hn : Some opts' = None) by (apply IHn; exists v', l'; auto).
              discriminate.
      * split; [discriminate|]. split; [intros _|reflexivity].
        destruct (proj1 IHn eq_refl) as [v' [l' [Hin Hb]]]. exists v', l'. split; [right|]; auto.
    + split; [discriminate|]. split; [intros _|reflexivity].
      apply proxy_value_None in Hpv. exists v, l. split; [left|]; auto.
Qed.

Ltac split_ifs H :=
  repeat match type of H with
         | context [if ?c then _ else _] => let E := fresh "Hc" in destruct c eqn:E
         | context [match ?l with [] => _ | _ :: _ => _ end] =>
             let E := fresh "Hl" in destruct l eqn:E
         | context [match ?o with Some _ => _ | None => _ end] =>
             let E := fresh "Ho" in destruct o eqn:E
         end.

(** A static select built by [to_slack_block] belongs to a dropdown-like field, carries the field's name as block id, and offers exactly the non-empty option list that [choices_to_slack_options] returns on the field's choices. *)
Theorem to_slack_block_select_options : forall f b opts,
  to_slack_block f = Some (MOne b) -> block_elem b = EStaticSelect opts ->
  type_in (fld_type f) DROPDOWN_LIKE = true
  /\ block_id b = fld_name f
  /\ opts <> []
  /\ choices_to_slack_options (get_field_choices f) = Some opts.
Proof.
  intros f b opts H Hb. unfold to_slack_block in H. split_ifs H;
    try discriminate H; injection H as <-; cbn in Hb; try discriminate Hb.
  injection Hb as <-. repeat split; try assumption; try reflexivity; try discriminate.
Qed.

(** Every block [to_slack_block] yields is for a field not always skipped, shown or required for customers, editable or required, and it is optional exactly when the field is neither required nor the subject or the description. *)
Theorem to_slack_block_visibility : forall f m b,
  to_slack_block f = Some m -> In b (normalize_blocks m) ->
  type_in (fld_type f) SKIP_ALWAYS = false
  /\ (fld_displayed_to_customers f = true \/ fld_required_for_customers f = true)
  /\ (fld_customers_can_edit f <> Some false \/ fld_required_for_customers f = true)
  /\ (block_optional b = true
      <-> fld_required_for_customers f = false
          /\ type_is (fld_type f) "default_subject" = false
          /\ type_is (fld_type f) "default_description" = false).
Proof.
  intros f m b Hm H. unfold to_slack_block in Hm.
  destruct (type_in (fld_type f) SKIP_ALWAYS) eqn:H1;
    [injection Hm as <-; contradiction|].
  destruct (negb (fld_displayed_to_customers f) && negb (fld_required_for_customers f)) eqn:H2;
    [injection Hm as <-; contradiction|].
  destruct (negb (get_or (fld_customers_can_edit f) true)
            && negb (fld_required_for_customers f)) eqn:H3; [injection Hm as <-; contradiction|].
  split; [reflexivity|]. split.
  { apply andb_false_iff in H2 as [H2|H2]; apply negb_false_iff in H2; auto. }
  split.
  { apply andb_false_iff in H3 as [H3|H3]; apply negb_false_iff in H3; auto.
    left. intro Hc. rewrite Hc in H3. discriminate. }
  destruct (type_is (fld_type f) "default_subject") eqn:H4.
  { injection Hm as <-. destruct H as [<-|[]]. cbn.
    split; [discriminate | intros [_ [? _]]; discriminate]. }
  destruct (type_is (fld_type f) "default_description") eqn:H5.
  { injection Hm as <-. destruct H as [<-|[]]. cbn.
    split; [discriminate | intros [_ [_ ?]]; discriminate]. }
  enough (Hopt : block_optional b = negb (fld_required_for_customers f)).
  { rewrite Hopt, negb_true_iff. tauto. }
  split_ifs Hm; try discriminate Hm; injection Hm as <-;
    cbn [normalize_blocks In] in H; try contradiction;
    try (destruct H as [<-|[]]; reflexivity).
  apply in_map_iff in H as [d [<- _]]. reflexivity.
Qed.

Definition level_le (a b : dep_field) : Prop := dep_level_key a <= dep_level_key b.

Lemma insert_by_level_perm : forall d l, Permutation (insert_by_level d l) (d :: l).
Proof.
  intros d l. induction l as [|x l IH]; simpl; [apply Permutation_refl|].
  destruct (dep_level_key d <? dep_level_key x); [apply Permutation_refl|].
  eapply perm_trans; [apply perm_skip, IH | apply perm_swap].
Qed.

Lemma insert_by_level_sorted : forall d l,
  StronglySorted level_le l -> StronglySorted level_le (insert_by_level d l).
Proof.
  intros d l. induction l as [|x l IH]; simpl; intro H.
  - repeat constructor.
  - inversion H as [|? ? Hs Hf]; subst.
    destruct (Z.ltb_spec (dep_level_key d) (dep_level_key x)) as [Hlt|Hge].
    + constructor; [exact H|]. constructor; [unfold level_le; lia|].
      eapply Forall_impl; [|exact Hf]. unfold level_le. intros. lia.
    + constructor; [apply IH; exact Hs|].
      eapply Permutation_Forall; [apply Permutation_sym, insert_by_level_perm|].
      constructor; [unfold level_le; lia | exact Hf].
Qed.

Lemma filter_level_above : forall k l,
  Forall (fun y => k < dep_level_key y) l ->
  filter (fun x => dep_level_key x =? k) l = [].
Proof.
  intros k l H. induction H as [|y l Hy _ IH]; simpl; [reflexivity|].
  destruct (Z.eqb_spec (dep_level_key y) k); [lia | exact IH].
Qed.

Lemma insert_by_level_stable : forall d l k,
  StronglySorted level_le l ->
  filter (fun x => dep_level_key x =? k) (insert_by_level d l)
  = filter (fun x => dep_level_key x =? k) l
    ++ (if dep_level_key d =? k then [d] else []).
Proof.
  intros d l k. induction l as [|x l IH]; simpl; intro H.
  - destruct (dep_level_key d =? k); reflexivity.
  - inversion H as [|? ? Hs Hf]; subst.
    destruct (Z.ltb_spec (dep_level_key d) (dep_level_key x)) as [Hlt|Hge].
    + destruct (Z.eqb_spec (dep_level_key d) k) as [Hk|Hk].
      * assert (Hx : (dep_level_key x =? k) = false) by (apply Z.eqb_neq; lia).
        assert (Hl : filter (fun x => dep_level_key x =? k) l = []).
        { apply filter_level_above.
          eapply Forall_impl; [|exact Hf]. unfold level_le. intros. lia. }
        simpl. rewrite Hx, Hl. replace (dep_level_key d =? k) with true
          by (symmetry; apply Z.eqb_eq; exact Hk). reflexivity.
      * simpl. replace (dep_level_key d =? k) with false
          by (symmetry; apply Z.eqb_neq; exact Hk). rewrite app_nil_r. reflexivity.
    + simpl. rewrite (IH Hs). destruct (dep_level_key x =? k); reflexivity.
Qed.

Lemma fold_insert_spec : forall l acc,
  StronglySorted level_le acc ->
  let r := fold_left (fun acc d => insert_by_level d acc) l acc in
  Permutation r (rev l ++ acc) /\ StronglySorted level_le r
  /\ forall k, filter (fun x => dep_level_key x =? k) r
               = filter (fun x => dep_level_key x =? k) acc
                 ++ filter (fun x => dep_level_key x =? k) l.
Proof.
  induction l as [|d l IH]; intros acc Hacc; simpl.
  - split; [apply Permutation_refl|]. split; [exact Hacc|]. intro k. rewrite app_nil_r. reflexivity.
  - destruct (IH (insert_by_level d acc) (insert_by_level_sorted d acc Hacc)) as [Hp [Hs Hf]].
    split; [|split; [exact Hs|]].
    + eapply perm_trans; [exact Hp|]. rewrite <- app_assoc. apply Permutation_app_head.
      simpl. apply insert_by_level_perm.
    + intro k. rewrite Hf, insert_by_level_stable by exact Hacc. rewrite <- app_assoc.
      destruct (dep_level_key d =? k); reflexivity.
Qed.

(** The ordering of dependent fields by level is a stable sort: a permutation, sorted by level key, that keeps the order among equal keys. *)
Theorem sort_by_level_stable_sort : forall l,
  Permutation (sort_by_level l) l
  /\ Sorted (fun a b => dep_level_key a <= dep_level_key b) (sort_by_level l)
  /\ forall k, filter (fun x => dep_level_key x =? k) (sort_by_level l)
               = filter (fun x => dep_level_key x =? k) l.
Proof.
  intro l. unfold sort_by_level.
  destruct (fold_insert_spec l [] (SSorted_nil _)) as [Hp [Hs Hf]].
  split; [|split].
  - eapply perm_trans; [exact Hp|]. rewrite app_nil_r. apply Permutation_sym, Permutation_rev.
  - apply StronglySorted_Sorted. exact Hs.
  - intro k. rewrite Hf. reflexivity.
Qed.

Lemma first_some_None : forall {A} (l : list (option A)),
  first_some l = None -> Forall (fun o => o = None) l.
Proof.
  intros A l. induction l as [|o l IH]; simpl; intro H; constructor.
  - destruct o; [discriminate | reflexivity].
  - apply IH. destruct o; [discriminate | exact H].
Qed.

Lemma truthy_choices_idem : forall o, truthy_choices (truthy_choices o) = truthy_choices o.
Proof.
  intros [c|]; simpl; [|reflexivity].
  destruct (choices_truthy c) eqn:H; simpl; [rewrite H|]; reflexivity.
Qed.

Lemma truthy_pick : forall fk dk,
  truthy_choices fk = None ->
  truthy_choices (match truthy_choices dk with Some c => Some c | None => fk end)
  = truthy_choices dk.
Proof.
  intros fk dk H. destruct (truthy_choices dk) as [c|] eqn:Hd; [|exact H].
  rewrite <- Hd, truthy_choices_idem. reflexivity.
Qed.

Lemma truthy_update_key : forall (fk dk : option choices),
  truthy_choices fk = None ->
  truthy_choices (match dk with Some c => Some c | None => fk end) = truthy_choices dk.
Proof. intros fk [c|] H; [reflexivity | exact H]. Qed.

Lemma props_falsy : forall p,
  props_truthy p = false -> p_choices p = None /\ p_option_values p = None /\ p_values p = None.
Proof.
  intros [c o v]. unfold props_truthy. cbn.
  destruct c, o, v; try discriminate; auto.
Qed.

(** A dropdown-like field without choices gets the choices of its fetched detail from [ensure_choices], and keeps its id, name, type, flags, dependents and section mappings. *)
Theorem ensure_choices_fetches_detail_choices : forall fetch f d,
  type_in (fld_type f) DROPDOWN_LIKE = true ->
  get_field_choices f = None ->
  fetch (fld_id f) = Some d ->
  get_field_choices (ensure_choices fetch f) = get_field_choices d
  /\ fld_id (ensure_choices fetch f) = fld_id f
  /\ fld_name (ensure_choices fetch f) = fld_name f
  /\ fld_type (ensure_choices fetch f) = fld_type f
  /\ fld_required_for_customers (ensure_choices fetch f) = fld_required_for_customers f
  /\ fld_displayed_to_customers (ensure_choices fetch f) = fld_displayed_to_customers f
  /\ fld_customers_can_edit (ensure_choices fetch f) = fld_customers_can_edit f
  /\ fld_dependent_fields (ensure_choices fetch f) = fld_dependent_fields f
  /\ fld_section_mappings (ensure_choices fetch f) = fld_section_mappings f.
Proof.
  intros fetch f d Ht Hn Hd. unfold ensure_choices. rewrite Ht, Hn, Hd. cbn [is_some negb andb].
  split; [|repeat split; reflexivity].
  pose proof (first_some_None _ Hn) as Hall. unfold get_field_choices in *.
  cbn [map] in Hall.
  repeat (let Hx := fresh "Hx" in apply Forall_cons_iff in Hall as [Hx Hall]).
  cbn [fld_cp fld_pp fld_choices fld_option_values fld_values fld_dropdown_choices
       fld_label_choices].
  f_equal. cbn [map].
  destruct (fld_cp d) as [p|]; [destruct (props_truthy p) eqn:Hpt|];
    (destruct (fld_pp d) as [q|]; [destruct (props_truthy q) eqn:Hqt|]);
    cbn [get_or props_update p_choices p_option_values p_values];
    rewrite ?truthy_update_key by assumption; rewrite ?truthy_choices_idem;
    repeat match goal with
           | H : props_truthy ?p = false |- _ =>
               let H1 := fresh "Hp" in let H2 := fresh "Hp" in let H3 := fresh "Hp" in
               apply props_falsy in H as [H1 [H2 H3]]; rewrite ?H1, ?H2, ?H3
           end; cbn [truthy_choices];
    repeat match goal with
           | H : truthy_choices ?a = None |- context [truthy_choices ?a] => rewrite H
           end; reflexivity.
Qed.

Lemma cache_get_app : forall k c fid v,
  cache_get k (c ++ [(fid, v)])
  = match cache_get k c with Some x => Some x | None => if Z.eqb k fid then Some v else None end.
Proof.
  intros k c fid v. induction c as [|[k' v'] c IH]; simpl; [reflexivity|].
  destruct (Z.eqb k k'); [reflexivity | exact IH].
Qed.

(** [get_sections_cached] memoises: after a call the cache holds its result, keeps every earlier entry, and on a hit the result is the cached one with the cache unchanged. *)
Theorem get_sections_cached_memo : forall get_sections cache fid,
  let '(r, cache') := get_sections_cached_st get_sections cache fid in
  cache_get fid cache' = Some r
  /\ (forall k v, cache_get k cache = Some v -> cache_get k cache' = Some v)
  /\ (forall v, cache_get fid cache = Some v -> r = v /\ cache' = cache).
Proof.
  intros g cache fid. unfold get_sections_cached_st.
  destruct (cache_get fid cache) as [v|] eqn:Hc.
  - split; [exact Hc|]. split; [auto|]. intros v' Hv. inversion Hv; subst. auto.
  - split; [rewrite cache_get_app, Hc, Z.eqb_refl; reflexivity|]. split.
    + intros k v Hk. rewrite cache_get_app, Hk. reflexivity.
    + intros v Hv. discriminate.
Qed.

Lemma py_slice_to_pos : forall {A} (xs : list A) n,
  0 <= n -> py_slice_to xs n = firstn (Z.to_nat n) xs.
Proof.
  intros A xs n H. unfold py_slice_to. destruct (Z.leb_spec 0 n); [reflexivity | lia].
Qed.

Lemma firstn_nil_iff : forall {A} n (xs : list A),
  (1 <= n)%nat -> firstn n xs = [] <-> xs = [].
Proof.
  intros A n xs H. destruct n as [|n]; [lia|]. destruct xs; simpl; split; congruence.
Qed.

Lemma find_some_true : forall {A} (p : A -> bool) l x, find p l = Some x -> p x = true.
Proof.
  intros A p l x. induction l as [|y l IH]; simpl; [discriminate|].
  destruct (p y) eqn:Hy; [intro H; injection H as <-; exact Hy | exact IH].
Qed.

(** [to_slack_block] raises only on a dropdown-like field that is neither
    the subject nor the description. *)
Lemma to_slack_block_None : forall f,
  to_slack_block f = None ->
  type_is (fld_type f) "default_subject" = false
  /\ type_is (fld_type f) "default_description" = false
  /\ type_in (fld_type f) DROPDOWN_LIKE = true.
Proof.
  intros f H. unfold to_slack_block in H. split_ifs H; try discriminate H.
  repeat split; assumption.
Qed.

Lemma core_blocks_Some : forall cores,
  Forall (fun c => match c with
                   | Some f => type_is (fld_type f) "default_subject" = true
                               \/ type_is (fld_type f) "default_description" = true
                   | None => True end) cores ->
  exists bs, core_blocks cores = Some bs.
Proof.
  intros cores H. induction H as [|[f|] cores Hc _ IH]; simpl; [eauto| |exact IH].
  destruct (to_slack_block f) as [m|] eqn:Hm.
  - destruct IH as [bs ->]. eauto.
  - apply to_slack_block_None in Hm as [H1 [H2 _]]. destruct Hc; congruence.
Qed.

(** A page rendering to no block is the field page of a known field that
    [to_slack_block] maps to nothing. *)
Lemma build_fields_for_page_nil : forall E max_blocks fs item l,
  1 <= max_blocks ->
  build_fields_for_page E max_blocks fs item = Ok [] l ->
  exists fid f m, item = FieldPage fid /\ by_id fs fid = Some f
    /\ to_slack_block (ensure_choices (fetch_field_detail E) f) = Some m
    /\ normalize_blocks m = [].
Proof.
  intros E mb fs item l Hmb H.
  assert (Hn : (1 <= Z.to_nat mb)%nat) by lia.
  destruct item as [fid| |]; cbn [build_fields_for_page] in H.
  - destruct (by_id fs fid) as [f|] eqn:Hby; [|discriminate].
    destruct (to_slack_block _) as [m|] eqn:Hm; [|discriminate].
    injection H as H _. rewrite py_slice_to_pos in H by lia.
    apply firstn_nil_iff in H; [|exact Hn].
    exists fid, f, m. repeat split; try assumption.
    destruct (normalize_blocks m); [reflexivity | discriminate].
  - destruct (core_blocks _) as [bs|]; [|discriminate].
    injection H as H _. rewrite py_slice_to_pos in H by lia.
    apply firstn_nil_iff in H; [|exact Hn]. destruct bs; discriminate.
  - discriminate.
Qed.

(** [build_fields_for_page] returns at most [max_blocks] blocks, and returns none only for a field page of a known field that renders to no block; it raises only the [UnicodeEncodeError] of [to_slack_block] on a dropdown-like field, and never on the final page or an unknown field. *)
Theorem build_fields_for_page_shape : forall E max_blocks fs item,
  1 <= max_blocks ->
  match build_fields_for_page E max_blocks fs item with
  | Ok blocks _ =>
      (List.length blocks <= Z.to_nat max_blocks)%nat
      /\ (blocks = []
          <-> exists fid f m, item = FieldPage fid /\ by_id fs fid = Some f
              /\ to_slack_block (ensure_choices (fetch_field_detail E) f) = Some m
              /\ normalize_blocks m = [])
  | Raise e =>
      e = UnicodeEncodeError
      /\ item <> Terminal
      /\ (forall fid, item = FieldPage fid -> by_id fs fid <> None)
      /\ exists f, to_slack_block f = None /\ type_in (fld_type f) DROPDOWN_LIKE = true
  end.
Proof.
  intros E mb fs item Hmb.
  destruct (build_fields_for_page E mb fs item) as [blocks l|e] eqn:H.
  - split.
    + destruct item as [fid| |]; cbn [build_fields_for_page] in H.
      * destruct (by_id fs fid) as [f|]; [|injection H as <- _; simpl; lia].
        destruct (to_slack_block _); [|discriminate].
        injection H as <- _. rewrite py_slice_to_pos by lia. apply firstn_le_length.
      * destruct (core_blocks _); [|discriminate].
        injection H as <- _. rewrite py_slice_to_pos by lia. apply firstn_le_length.
      * injection H as <- _. simpl. lia.
    + split; [intros ->; eapply build_fields_for_page_nil; eassumption|].
      intros [fid [f [m [-> [Hby [Hm Hnb]]]]]]. cbn [build_fields_for_page] in H.
      rewrite Hby, Hm, Hnb in H. injection H as <- _. rewrite py_slice_to_pos by lia. apply firstn_nil.
  - destruct item as [fid| |]; cbn [build_fields_for_page] in H.
    + destruct (by_id fs fid) as [f|] eqn:Hby; [|discriminate].
      destruct (to_slack_block _) as [m|] eqn:Hm; [discriminate|]. injection H as <-.
      split; [reflexivity|]. split; [discriminate|].
      split; [intros i Hi; injection Hi as <-; rewrite Hby; discriminate|].
      eexists. split; [exact Hm|]. apply to_slack_block_None in Hm. apply Hm.
    + destruct (core_blocks _) as [bs|] eqn:Hc; [discriminate|]. injection H as <-.
      split; [reflexivity|]. split; [discriminate|]. split; [discriminate|].
      revert Hc. generalize (find (fun f => type_is (fld_type f) "default_subject") fs),
        (find (fun f => type_is (fld_type f) "default_description") fs).
      intros o1 o2 Hc. cbn [core_blocks] in Hc.
      destruct o1 as [f1|];
        [destruct (to_slack_block f1) as [m1|] eqn:H1;
         [|exists f1; split; [exact H1 | apply to_slack_block_None in H1; apply H1]]|].
      * destruct o2 as [f2|]; [|discriminate].
        destruct (to_slack_block f2) as [m2|] eqn:H2; [discriminate|].
        exists f2. split; [exact H2 | apply to_slack_block_None in H2; apply H2].
      * destruct o2 as [f2|]; [|discriminate].
        destruct (to_slack_block f2) as [m2|] eqn:H2; [discriminate|].
        exists f2. split; [exact H2 | apply to_slack_block_None in H2; apply H2].
    + discriminate.
Qed.

Section Render.

Variable E : env.
Variable fs : list field.
Variable V : answers.
Variable fsi : list (option Z).

(** Every field page so far renders at least one block. *)
Definition renders (st : wstate) : Prop :=
  forall fid, In (FieldPage fid) (w_pages st) ->
    exists f m, by_id fs fid = Some f
                /\ to_slack_block (ensure_choices (fetch_field_detail E) f) = Some m
                /\ normalize_blocks m <> [].

Definition renders_step (a b : wstate) : Prop := renders a -> renders b.

Lemma renders_step_refl : forall a, renders_step a a.
Proof. intros a H. exact H. Qed.

Lemma renders_step_trans : forall a b c, renders_step a b -> renders_step b c -> renders_step a c.
Proof. intros a b c H1 H2 H. auto. Qed.

Lemma add_renders : forall n fid st r st',
  add_field_and_children E fs V fsi n fid st = WDone r st' -> renders_step st st'.
Proof.
  induction n as [|n IH]; simpl; intros fid st r st' H; [discriminate|].
  destruct (z_mem fid (w_visited st)); [inversion H; subst; apply renders_step_refl|].
  destruct (by_id fs fid) as [f|] eqn:Hby; [|inversion H; subst; intros Hr; exact Hr].
  destruct (_ || _); [inversion H; subst; intros Hr; exact Hr|].
  destruct (to_slack_block _) as [m|] eqn:Hm; [|discriminate].
  destruct (normalize_blocks m) as [|b bs] eqn:Hnb; [inversion H; subst; intros Hr; exact Hr|].
  assert (G : renders_step st (push fid (visit fid st))).
  { intros Hr i Hi. cbn [push visit w_pages] in Hi. apply in_app_or in Hi as [Hi|[Hi|[]]].
    - exact (Hr i Hi).
    - inversion Hi; subst i. exists f, m. split; [exact Hby|]. split; [exact Hm|].
      rewrite Hnb. discriminate. }
  destruct (negb _).
  - destruct (selected_value_for E f V) as [sel|]; [|inversion H; subst; exact G].
    apply renders_step_trans with (push fid (visit fid st)); [exact G|].
    eapply seq_until_inv; [exact renders_step_refl | exact renders_step_trans | | exact H].
    intros sec s0 r0 s1 Hs. eapply section_step_inv;
      [exact renders_step_refl | exact renders_step_trans | | exact Hs].
    intros. eapply IH. eassumption.
  - inversion H; subst. exact G.
Qed.

End Render.

(** Every page [compute_pages] lists renders, in [build_fields_for_page], to at least one block without raising. *)
Theorem compute_pages_pages_nonempty : forall E fm fs V pages l max_blocks,
  compute_pages E fm fs V = Ok pages l -> 1 <= max_blocks ->
  forall item, In item pages ->
    exists blocks l', build_fields_for_page E max_blocks fs item = Ok blocks l'
                      /\ blocks <> [].
Proof.
  intros E fm fs V pages l mb H Hmb item Hin.
  unfold compute_pages in H.
  destruct (get_form_detail E (form_id fm)) as [d|]; [|discriminate].
  destruct (traverse E d fm fs V) as [r st|] eqn:Ht; [|discriminate].
  inversion H; subst pages l.
  assert (Hr : renders E fs st).
  { unfold traverse in Ht.
    refine (seq_until_inv (renders_step E fs) _ (renders_step_refl E fs)
              (renders_step_trans E fs) _ _ _ _ _ Ht _).
    - intros. eapply add_renders. eassumption.
    - intros fid []. }
  assert (Hok : exists blocks l', build_fields_for_page E mb fs item = Ok blocks l').
  { destruct item as [fid| |].
    - apply in_app_or in Hin as [Hin|[Hin|[Hin|[]]]]; try discriminate.
      destruct (Hr fid Hin) as [f [m [Hby [Hm _]]]].
      cbn [build_fields_for_page]. rewrite Hby, Hm. eauto.
    - cbn [build_fields_for_page].
      destruct (core_blocks_Some
                  [find (fun f => type_is (fld_type f) "default_subject") fs;
                   find (fun f => type_is (fld_type f) "default_description") fs])
        as [bs ->]; [|eauto].
      repeat constructor.
      + destruct (find _ fs) eqn:Hf; [left; exact (find_some_true _ _ _ Hf)|exact I].
      + destruct (find _ fs) eqn:Hf; [right; exact (find_some_true _ _ _ Hf)|exact I].
    - cbn [build_fields_for_page]. eauto. }
  destruct Hok as [blocks [l' Hb]]. exists blocks, l'. split; [exact Hb|]. intros ->.
  apply (build_fields_for_page_nil E mb fs item l' Hmb) in Hb as [fid [f [m [-> [Hby [Hm He]]]]]].
  apply in_app_or in Hin as [Hin|[Hin|[Hin|[]]]]; try discriminate.
  destruct (Hr fid Hin) as [g [m' [Hg [Hm' Hne]]]]. rewrite Hby in Hg. injection Hg as <-.
  rewrite Hm in Hm'. injection Hm' as <-. exact (Hne He).
Qed.

Lemma compute_pages_field_prefix : forall E fm fs V pages l,
  compute_pages E fm fs V = Ok pages l ->
  exists ids, pages = map FieldPage ids ++ [Core; Terminal].
Proof.
  intros E fm fs V pages l H. unfold compute_pages in H.
  destruct (get_form_detail E (form_id fm)) as [d|]; [|discriminate].
  destruct (traverse E d fm fs V) as [r st|] eqn:Ht; [|discriminate].
  inversion H; subst. destruct (traverse_pages _ _ _ _ _ _ _ Ht) as [ids Hids].
  exists ids. rewrite Hids. reflexivity.
Qed.

Lemma nth_error_pages : forall ids k,
  (k < List.length ids + 2)%nat ->
  exists item, nth_error (map FieldPage ids ++ [Core; Terminal]) k = Some item
               /\ (item = Terminal <-> k = S (List.length ids)).
Proof.
  intros ids k Hk. destruct (Nat.lt_ge_cases k (List.length ids)) as [Hlt|Hge].
  - rewrite nth_error_app1 by (rewrite length_map; exact Hlt).
    destruct (nth_error (map FieldPage ids) k) as [item|] eqn:He.
    + exists item. split; [reflexivity|]. apply nth_error_In in He.
      apply in_map_iff in He as [i [<- _]]. split; [discriminate | lia].
    + apply nth_error_None in He. rewrite length_map in He. lia.
  - rewrite nth_error_app2 by (rewrite length_map; exact Hge). rewrite length_map.
    destruct (k - List.length ids)%nat as [|[|m]] eqn:Hm; simpl.
    + exists Core. split; [reflexivity|]. split; [discriminate | lia].
    + exists Terminal. split; [reflexivity|]. split; [lia | reflexivity].
    + lia.
Qed.

(** The [action_id]s of the navigation buttons of a view. *)
Definition nav_action_ids (v : view) : list pystr :=
  flat_map (fun b => match b with VActions _ els => map btn_action_id els | _ => [] end)
           (v_blocks v).

(** [build_wizard_page_modal] clamps the page into range and stores it; it offers Back exactly after the first page, Next exactly before the last one, and Create with the [wizard_submit] callback exactly on the last one; its title has at most 24 code points. *)
Theorem build_wizard_page_modal_controls : forall E max_blocks fm fs token page V v logs,
  build_wizard_page_modal E max_blocks fm fs token page V = Ok v logs ->
  exists pages l,
    compute_pages E fm fs V = Ok pages l
    /\ let total := Z.of_nat (List.length pages) in
       let q := Z.max 0 (Z.min page (total - 1)) in
       v_meta_page_index v = q /\ 0 <= q < total
       /\ (In (s "wizard_prev") (nav_action_ids v) <-> 0 < q)
       /\ (In (s "wizard_next") (nav_action_ids v) <-> q < total - 1)
       /\ (v_submit v = Some (s "Create") <-> q = total - 1)
       /\ (v_submit v = None <-> q < total - 1)
       /\ (v_callback_id v = s "wizard_submit" <-> q = total - 1)
       /\ (List.length (v_title v) <= 24)%nat.
Proof.
  intros E mb fm fs token page V v logs H. unfold build_wizard_page_modal in H.
  destruct (compute_pages E fm fs V) as [pages l|ex] eqn:Hcp; [|discriminate].
  exists pages, l. split; [reflexivity|].
  destruct (compute_pages_field_prefix _ _ _ _ _ _ Hcp) as [ids ->].
  set (total := Z.of_nat (List.length (map FieldPage ids ++ [Core; Terminal]))) in *.
  assert (Htot : total = Z.of_nat (List.length ids) + 2).
  { unfold total. rewrite length_app, length_map. simpl. lia. }
  set (q := Z.max 0 (Z.min page (total - 1))) in *.
  assert (Hq : 0 <= q < total) by (unfold q; lia).
  destruct (nth_error_pages ids (Z.to_nat q) ltac:(lia)) as [item [Hnth Hterm]].
  rewrite Hnth in H.
  destruct (build_fields_for_page E mb fs item) as [fblocks lf|ex]; [|discriminate].
  injection H as <- _. cbn [v_meta_page_index v_submit v_callback_id
    v_title v_blocks]. split; [reflexivity|]. split; [exact Hq|].
  assert (Hlast : item = Terminal <-> q = total - 1) by (rewrite Hterm; lia).
  assert (Hnav : forall hdr (fb : list sblock) (nav : list button),
             flat_map (fun b => match b with VActions _ els => map btn_action_id els | _ => [] end)
               ([VSection hdr] ++ map VField fb
                ++ match nav with [] => [] | _ => [VActions (s "wizard_nav") nav] end)
             = map btn_action_id nav).
  { intros hdr fb nav. rewrite !flat_map_app. cbn [flat_map app].
    replace (flat_map _ (map VField fb)) with (@nil pystr)
      by (induction fb as [|x fb IHfb]; [reflexivity | exact IHfb]).
    destruct nav; cbn [flat_map app]; rewrite ?app_nil_r; reflexivity. }
  assert (Hnav' : forall hdr (fb : list sblock) (nav : list button),
             flat_map (fun b => match b with VActions _ els => map btn_action_id els | _ => [] end)
               (VSection hdr :: map VField fb
                ++ match nav with [] => [] | _ => [VActions (s "wizard_nav") nav] end)
             = map btn_action_id nav) by exact Hnav.
  unfold nav_action_ids. cbn [v_blocks]. rewrite (Hnav' _ _ _), map_app.
  split; [|split; [|split; [|split; [|split]]]].
  - destruct (0 <? q) eqn:H0; destruct (q <? total - 1) eqn:H1;
      rewrite ?Z.ltb_lt, ?Z.ltb_ge in *; cbn; split; intro Hx; try lia;
      repeat (destruct Hx as [Hx|Hx]); try discriminate; try contradiction; auto.
  - destruct (0 <? q) eqn:H0; destruct (q <? total - 1) eqn:H1;
      rewrite ?Z.ltb_lt, ?Z.ltb_ge in *; cbn; split; intro Hx; try lia;
      repeat (destruct Hx as [Hx|Hx]); try discriminate; try contradiction; auto.
  - destruct item; split; intro Hx; try discriminate; try (apply Hlast; reflexivity);
      try (apply Hlast in Hx; discriminate); reflexivity.
  - destruct item; split; intro Hx; try discriminate; try reflexivity;
      try (assert (Terminal = Terminal) as Ht by reflexivity; apply Hlast in Ht; lia);
      try (assert (Hne : q <> total - 1) by (intro Heq; apply Hlast in Heq; discriminate); lia).
  - destruct item; split; intro Hx; try discriminate; try (apply Hlast; reflexivity);
      try (apply Hlast in Hx; discriminate); reflexivity.
  - unfold py_slice_to. cbn -[firstn]. rewrite firstn_le_length. lia.
Qed.

Lemma lookup_del_session : forall k t st,
  lookup k (del_session t st) = if pystr_eqb k t then None else lookup k st.
Proof.
  intros k t st. induction st as [|[k' v] st IH]; simpl.
  - destruct (pystr_eqb k t); reflexivity.
  - destruct (pystr_eqb k' t) eqn:Hk't; simpl.
    + apply pystr_eqb_eq in Hk't. subst k'. rewrite IH.
      destruct (pystr_eqb k t); reflexivity.
    + rewrite IH. destruct (pystr_eqb k k') eqn:Hkk'; [|reflexivity].
      apply pystr_eqb_eq in Hkk'. subst k'. rewrite Hk't. reflexivity.
Qed.

(** Whether the handler answered with a created ticket. *)
Definition ticket_created (r : outcome response) : bool :=
  match r with
  | Ok RespClear _ | Ok (RespCreated _) _ => true
  | _ => false
  end.

(** [wizard_submit] leaves the other sessions untouched, drops the wizard session once the ticket is created, and keeps the store as it was when creation fails. *)
Theorem wizard_submit_session_lifecycle :
  forall E cfg fd_post notify store token meta_form_id view_values user_id user_email,
  str_truthy token = true ->
  let '(res, store') := wizard_submit E cfg fd_post notify store (Some token) meta_form_id
                                      view_values user_id user_email in
  (forall k, k <> token -> lookup k store' = lookup k store)
  /\ (ticket_created res = true -> lookup token store' = None)
  /\ (ticket_created res = false -> store' = store).
Proof.
  intros E cfg fd_post notify store t mid vv uid email Ht. unfold wizard_submit.
  rewrite Ht.
  destruct (modal_values_to_fd_ticket _ _ _ _ _) as [tk logs|ex].
  2:{ split; [reflexivity|]. split; [discriminate | reflexivity]. }
  destruct (fd_post tk) as [tid|].
  2:{ split; [reflexivity|]. split; [discriminate | reflexivity]. }
  destruct (lookup t store) as [ss|] eqn:Hl; cbn [is_some].
  - split; [|split].
    + intros k Hk. rewrite lookup_del_session.
      destruct (pystr_eqb k t) eqn:Hkt; [apply pystr_eqb_eq in Hkt; contradiction | reflexivity].
    + intros _. rewrite lookup_del_session, pystr_eqb_refl. reflexivity.
    + intro Hc. exfalso. revert Hc.
      match goal with |- context [if ?b then RespClear else _] => destruct b end; discriminate.
  - split; [reflexivity|]. split; [intros _; exact Hl|].
    intro Hc. exfalso. revert Hc.
    match goal with |- context [if ?b then RespClear else _] => destruct b end; discriminate.
Qed.

Lemma lookup_app : forall {A} k (x y : list (pystr * A)),
  lookup k (x ++ y) = match lookup k x with Some v => Some v | None => lookup k y end.
Proof.
  intros A k x y. induction x as [|[k' v] x IH]; simpl; [reflexivity|].
  destruct (pystr_eqb k k'); [reflexivity | exact IH].
Qed.

(** After [merged.update(new)], a key reads its new value when it has one and its old value otherwise. *)
Theorem dict_merge_lookup : forall {A} (a b : list (pystr * A)) k,
  lookup k (dict_merge a b) = match lookup k b with Some v => Some v | None => lookup k a end.
Proof.
  intros A a b k. unfold dict_merge. rewrite lookup_app.
  assert (Hm : lookup k (map (fun kv => (fst kv, get_or (lookup (fst kv) b) (snd kv))) a)
               = option_map (fun v => get_or (lookup k b) v) (lookup k a)).
  { induction a as [|[k' v] a IH]; simpl; [reflexivity|].
    destruct (pystr_eqb k k') eqn:Hk; [|exact IH].
    apply pystr_eqb_eq in Hk. subst k'. reflexivity. }
  assert (Hf : lookup k (filter (fun kv => negb (is_some (lookup (fst kv) a))) b)
               = if is_some (lookup k a) then None else lookup k b).
  { clear Hm. induction b as [|[k' v] b IH]; simpl; [destruct (is_some (lookup k a)); reflexivity|].
    destruct (is_some (lookup k' a)) eqn:Hs; simpl.
    - rewrite IH. destruct (pystr_eqb k k') eqn:Hk; [|reflexivity].
      apply pystr_eqb_eq in Hk. subst k'. rewrite Hs. reflexivity.
    - destruct (pystr_eqb k k') eqn:Hk; [|exact IH].
      apply pystr_eqb_eq in Hk. subst k'. rewrite Hs. reflexivity. }
  rewrite Hm, Hf. destruct (lookup k a) as [v|]; simpl.
  - destruct (lookup k b); reflexivity.
  - destruct (lookup k b); reflexivity.
Qed.

(** Where a custom field of the ticket comes from: a non-core answer
    [(k, e)] whose value is kept as it is, or a proxy value resolved. *)
Definition custom_from (E : env) (values : answers) (k : pystr) (v : pyval) : Prop :=
  is_subject_key k = false /\ is_description_key k = false /\ is_type_key k = false
  /\ exists e, In (k, e) values
     /\ ((extract_input e = Some v /\ v <> VStr (s "__noop__")
          /\ forall x, v = VStr x -> startswith x HASH_PREFIX = false)
         \/ exists x r logs, extract_input e = Some (VStr x)
                             /\ startswith x HASH_PREFIX = true
                             /\ resolve_proxy_value E (Some k) x = Ok r logs
                             /\ v = VStr r).

Lemma custom_from_cons : forall E kv values k v,
  custom_from E values k v -> custom_from E (kv :: values) k v.
Proof.
  intros E kv values k v [H1 [H2 [H3 [e [He Hv]]]]].
  repeat split; auto. exists e. split; [right; exact He | exact Hv].
Qed.

Lemma collect_custom : forall E values acc c logs,
  collect E values acc = Ok c logs ->
  forall k v, In (k, v) (c_custom_fields c) ->
    In (k, v) (c_custom_fields acc) \/ custom_from E values k v.
Proof.
  intros E values. induction values as [|[bid e] rest IH]; intros acc c logs H k v Hin.
  - inversion H; subst. left. exact Hin.
  - cbn [collect] in H.
    assert (Hkeep : forall acc', c_custom_fields acc' = c_custom_fields acc ->
              collect E rest acc' = Ok c logs ->
              In (k, v) (c_custom_fields acc) \/ custom_from E ((bid, e) :: rest) k v).
    { intros acc' Ha Hc. destruct (IH acc' c logs Hc k v Hin) as [Hi|Hi].
      - left. rewrite <- Ha. exact Hi.
      - right. apply custom_from_cons. exact Hi. }
    destruct (pystr_eqb bid (s "subject")) eqn:Hs; [(eapply Hkeep; [|exact H]; reflexivity)|].
    destruct (pystr_eqb bid (s "description")) eqn:Hd; [(eapply Hkeep; [|exact H]; reflexivity)|].
    destruct (str_mem bid TYPE_KEYS) eqn:Ht; [(eapply Hkeep; [|exact H]; reflexivity)|].
    assert (Hadd : forall w, (extract_input e = Some w /\ w <> VStr (s "__noop__")
                             /\ forall x, w = VStr x -> startswith x HASH_PREFIX = false)
                          \/ (exists x r logs, extract_input e = Some (VStr x)
                               /\ startswith x HASH_PREFIX = true
                               /\ resolve_proxy_value E (Some bid) x = Ok r logs
                               /\ w = VStr r) ->
              forall acc' logs', c_custom_fields acc' = c_custom_fields acc ++ [(bid, w)] ->
              collect E rest acc' = Ok c logs' ->
              In (k, v) (c_custom_fields acc) \/ custom_from E ((bid, e) :: rest) k v).
    { intros w Hw acc' logs' Ha Hc. destruct (IH acc' c logs' Hc k v Hin) as [Hi|Hi].
      - rewrite Ha in Hi. apply in_app_or in Hi as [Hi|[Hi|[]]]; [left; exact Hi|].
        inversion Hi; subst. right. repeat split; auto. exists e. split; [left; reflexivity|].
        exact Hw.
      - right. apply custom_from_cons. exact Hi. }
    destruct (extract_input e) as [[x|b]|] eqn:Hx.
    + destruct (pystr_eqb x (s "__noop__")) eqn:Hn; [(eapply Hkeep; [|exact H]; reflexivity)|].
      destruct (startswith x HASH_PREFIX) eqn:Hh.
      * destruct (resolve_proxy_value E (Some bid) x) as [r rl|ex] eqn:Hr; [|discriminate].
        destruct (collect E rest _) as [c' l'|ex] eqn:Hc; [|discriminate].
        inversion H; subst c' logs.
        refine (Hadd (VStr r) _ _ _ _ Hc); [|reflexivity].
        right. exists x, r, rl. auto.
      * refine (Hadd (VStr x) _ _ _ _ H); [|reflexivity].
        left. split; [reflexivity|]. split.
        -- intro Heq. inversion Heq; subst. rewrite pystr_eqb_refl in Hn. discriminate.
        -- intros y Hy. inversion Hy; subst. exact Hh.
    + refine (Hadd (VBool b) _ _ _ _ H); [|reflexivity].
      left. split; [reflexivity|]. split; [discriminate | intros y Hy; discriminate].
    + (eapply Hkeep; [|exact H]; reflexivity).
Qed.

(** A ticket from [modal_values_to_fd_ticket] never carries an empty [custom_fields], and each of its custom fields comes from an answered input of a non-core key. *)
Theorem modal_ticket_custom_fields : forall E cfg values ticket_form_id email t logs,
  modal_values_to_fd_ticket E cfg values ticket_form_id email = Ok t logs ->
  t_custom_fields t <> Some []
  /\ forall k v, In (k, v) (get_or (t_custom_fields t) []) -> custom_from E values k v.
Proof.
  intros E cfg values fid email t logs H. unfold modal_values_to_fd_ticket in H.
  destruct (collect E values _) as [c cl|ex] eqn:Hc; [|discriminate].
  destruct (if negb (opt_truthy (c_type_field c)) && _ then _ else _) as [tf logs2].
  inversion H; subst t. cbn [t_custom_fields]. split.
  - destruct (c_custom_fields c); discriminate.
  - intros k v Hin.
    assert (Hin' : In (k, v) (c_custom_fields c))
      by (destruct (c_custom_fields c); [destruct Hin | exact Hin]).
    destruct (collect_custom E values _ c cl Hc k v Hin') as [[]|Hf]. exact Hf.
Qed.

Lemma cache_get_zdict_set : forall fid k v d,
  cache_get fid (zdict_set k v d) = if Z.eqb fid k then Some v else cache_get fid d.
Proof.
  intros fid k v d. unfold zdict_set.
  destruct (existsb (fun kv => Z.eqb (fst kv) k) d) eqn:He.
  - induction d as [|[k' v'] d IH]; simpl in *; [discriminate|].
    destruct (Z.eqb_spec k' k) as [->|Hne]; simpl.
    + destruct (Z.eqb_spec fid k) as [|Hfk]; [reflexivity|].
      clear IH He. induction d as [|[k2 v2] d IH2]; simpl; [reflexivity|].
      destruct (Z.eqb_spec k2 k) as [->|Hne2]; simpl.
      * destruct (Z.eqb_spec fid k); [contradiction|]. exact IH2.
      * destruct (Z.eqb fid k2); [reflexivity | exact IH2].
    + rewrite (IH He). destruct (Z.eqb_spec fid k') as [Hf|Hf];
        destruct (Z.eqb_spec fid k) as [Hg|Hg]; try (exfalso; lia); reflexivity.
  - rewrite cache_get_app. destruct (cache_get fid d) as [x|] eqn:Hc.
    + destruct (Z.eqb_spec fid k) as [->|]; [|reflexivity].
      exfalso. clear v. induction d as [|[k' v'] d IH]; simpl in *; [discriminate|].
      apply orb_false_iff in He as [H1 H2]. rewrite Z.eqb_sym, H1 in Hc. exact (IH H2 Hc).
    + destruct (Z.eqb fid k); reflexivity.
Qed.

Lemma cache_get_scrape : forall fid found d,
  ~ In fid (map fst found) ->
  cache_get fid (fold_left (fun d kv => zdict_set (fst kv) (snd kv) d) found d)
  = cache_get fid d.
Proof.
  intros fid found. induction found as [|[k v] found IH]; simpl; intros d Hn; [reflexivity|].
  rewrite IH by tauto. rewrite cache_get_zdict_set.
  destruct (Z.eqb_spec fid k); [exfalso; apply Hn; left; congruence | reflexivity].
Qed.

(** The scraped fallback of [get_sections] caches no miss: two calls for a field the scraper does not find both return no sections and scrape the portal twice. *)
Theorem get_sections_rescrapes_on_miss : forall found1 found2 field_id st,
  cache_get field_id (scraped_sections st) = None ->
  ~ In field_id (map fst found1) -> ~ In field_id (map fst found2) ->
  let '(r1, st1) := get_sections_svc None found1 field_id st in
  let '(r2, st2) := get_sections_svc None found2 field_id st1 in
  r1 = [] /\ r2 = [] /\ scrape_count st2 = (scrape_count st + 2)%nat.
Proof.
  intros f1 f2 fid st H0 H1 H2. unfold get_sections_svc. rewrite H0.
  cbn [scrape_portal_fields scraped_sections scrape_count].
  rewrite (cache_get_scrape fid f1 _ H1), H0.
  rewrite (cache_get_scrape fid f2 _ H2), (cache_get_scrape fid f1 _ H1), H0.
  cbn. split; [reflexivity|]. split; [reflexivity | lia].
Qed.

Lemma pystr_eqb_spec : forall a b, reflect (a = b) (pystr_eqb a b).
Proof. intros a b. apply iff_reflect. symmetry. apply pystr_eqb_eq. Qed.

Lemma lookup_dict_set : forall {A} k k' (v : A) d,
  lookup k (dict_set k' v d) = if pystr_eqb k k' then Some v else lookup k d.
Proof.
  intros A k k' v d. unfold dict_set.
  destruct (existsb (fun kv => pystr_eqb (fst kv) k') d) eqn:He.
  - induction d as [|[k1 v1] d IH]; simpl in *; [discriminate|].
    destruct (pystr_eqb_spec k1 k') as [->|Hne]; simpl.
    + destruct (pystr_eqb_spec k k') as [|Hkk]; [reflexivity|].
      clear IH He. induction d as [|[k2 v2] d IH2]; simpl; [reflexivity|].
      destruct (pystr_eqb_spec k2 k') as [->|Hne2]; simpl.
      * destruct (pystr_eqb_spec k k'); [contradiction|]. exact IH2.
      * destruct (pystr_eqb k k2); [reflexivity | exact IH2].
    + rewrite (IH He). destruct (pystr_eqb_spec k k1) as [Hf|Hf];
        destruct (pystr_eqb_spec k k') as [Hg|Hg]; try (exfalso; congruence); reflexivity.
  - rewrite lookup_app. destruct (lookup k d) as [x|] eqn:Hc.
    + destruct (pystr_eqb_spec k k') as [->|]; [|reflexivity].
      exfalso. clear v. induction d as [|[k1 v1] d IH]; simpl in *; [discriminate|].
      apply orb_false_iff in He as [H1 H2].
      destruct (pystr_eqb_spec k' k1) as [->|]; [rewrite pystr_eqb_refl in H1; discriminate|].
      exact (IH H2 Hc).
    + simpl. destruct (pystr_eqb k k'); reflexivity.
Qed.

Lemma get_user_email_cases : forall py_lower info profile cache uid,
  get_user_email py_lower info profile cache uid = (None, cache)
  \/ exists e, str_truthy e = true
     /\ (get_user_email py_lower info profile cache uid = (Some e, cache) /\ lookup uid cache = Some e
         \/ get_user_email py_lower info profile cache uid = (Some e, dict_set uid e cache)).
Proof.
  intros py_lower info profile cache uid. unfold get_user_email. cbv zeta.
  repeat match goal with
  | |- context [match ?x with _ => _ end] =>
      lazymatch x with
      | context [match _ with _ => _ end] => fail
      | _ => destruct x eqn:?
      end
  end;
  repeat match goal with
  | H : find _ _ = Some _ |- _ =>
      apply find_some in H as [_ H]; apply andb_true_iff in H as [H _];
      apply andb_true_iff in H as [H _]
  end;
  first [ left; reflexivity
        | right; eexists; split; [eassumption | left; split; reflexivity]
        | right; eexists; split; [eassumption | right; reflexivity] ].
Qed.

(** [get_user_email] caches exactly the truthy email it returns, under the user's id only, after which the lookup is answered from the cache whatever Slack returns; a failed lookup leaves the cache as it was. *)
Theorem get_user_email_cache : forall py_lower info profile cache uid,
  let '(r, cache') := get_user_email py_lower info profile cache uid in
  (r = None -> cache' = cache)
  /\ (forall e, r = Some e ->
        str_truthy e = true /\ lookup uid cache' = Some e
        /\ forall info' profile', get_user_email py_lower info' profile' cache' uid = (Some e, cache'))
  /\ (forall k, k <> uid -> lookup k cache' = lookup k cache).
Proof.
  intros py_lower info profile cache uid.
  assert (Hhit : forall c e, lookup uid c = Some e -> str_truthy e = true ->
            forall info' profile', get_user_email py_lower info' profile' c uid = (Some e, c)).
  { intros c e Hl Ht info' profile'. unfold get_user_email. cbv zeta. rewrite Hl, Ht. reflexivity. }
  destruct (get_user_email_cases py_lower info profile cache uid) as [H|[e [Ht [[H Hl]|H]]]];
    rewrite H.
  - split; [reflexivity|]. split; [discriminate | reflexivity].
  - split; [discriminate|]. split; [|reflexivity].
    intros e' He'. inversion He'; subst e'. split; [exact Ht|]. split; [exact Hl|].
    apply Hhit; assumption.
  - assert (Hl : lookup uid (dict_set uid e cache) = Some e)
      by (rewrite lookup_dict_set, pystr_eqb_refl; reflexivity).
    split; [discriminate|]. split.
    + intros e' He'. inversion He'; subst e'. split; [exact Ht|]. split; [exact Hl|].
      apply Hhit; assumption.
    + intros k Hk. rewrite lookup_dict_set.
      destruct (pystr_eqb_spec k uid); [contradiction | reflexivity].
Qed.

(* ------------------------------------------------------------------ *)
(** ** Witnesses *)

Lemma to_slack_block_select_options_witness :
  to_slack_block Scenarios.country = Some (MOne Scenarios.country_block)
  /\ block_elem Scenarios.country_block = EStaticSelect Scenarios.country_options
  /\ type_in (fld_type Scenarios.country) DROPDOWN_LIKE = true
  /\ block_id Scenarios.country_block = fld_name Scenarios.country
  /\ Scenarios.country_options <> []
  /\ choices_to_slack_options (get_field_choices Scenarios.country)
     = Some Scenarios.country_options.
Proof.
  assert (H1 : to_slack_block Scenarios.country = Some (MOne Scenarios.country_block))
    by (vm_compute; reflexivity).
  split; [exact H1|]. split; [reflexivity|].
  exact (to_slack_block_select_options _ _ _ H1 eq_refl).
Defined.

Lemma to_slack_block_visibility_witness :
  to_slack_block Scenarios.country = Some (MOne Scenarios.country_block)
  /\ In Scenarios.country_block (normalize_blocks (MOne Scenarios.country_block))
  /\ type_in (fld_type Scenarios.country) SKIP_ALWAYS = false
  /\ (fld_displayed_to_customers Scenarios.country = true
      \/ fld_required_for_customers Scenarios.country = true)
  /\ (fld_customers_can_edit Scenarios.country <> Some false
      \/ fld_required_for_customers Scenarios.country = true)
  /\ (block_optional Scenarios.country_block = true
      <-> fld_required_for_customers Scenarios.country = false
          /\ type_is (fld_type Scenarios.country) "default_subject" = false
          /\ type_is (fld_type Scenarios.country) "default_description" = false).
Proof.
  assert (H1 : to_slack_block Scenarios.country = Some (MOne Scenarios.country_block))
    by (vm_compute; reflexivity).
  assert (H2 : In Scenarios.country_block (normalize_blocks (MOne Scenarios.country_block)))
    by (left; reflexivity).
  split; [exact H1|]. split; [exact H2|]. exact (to_slack_block_visibility _ _ _ H1 H2).
Defined.

Lemma ensure_choices_fetches_detail_choices_witness :
  type_in (fld_type Scenarios.bare_dropdown) DROPDOWN_LIKE = true
  /\ get_field_choices Scenarios.bare_dropdown = None
  /\ get_field_choices (ensure_choices (fun _ => Some Scenarios.country) Scenarios.bare_dropdown)
     = get_field_choices Scenarios.country.
Proof.
  assert (H1 : type_in (fld_type Scenarios.bare_dropdown) DROPDOWN_LIKE = true)
    by (vm_compute; reflexivity).
  assert (H2 : get_field_choices Scenarios.bare_dropdown = None) by (vm_compute; reflexivity).
  split; [exact H1|]. split; [exact H2|].
  exact (proj1 (ensure_choices_fetches_detail_choices (fun _ => Some Scenarios.country)
                  Scenarios.bare_dropdown Scenarios.country H1 H2 eq_refl)).
Defined.

Lemma build_fields_for_page_shape_witness :
  1 <= 49
  /\ forall blocks l,
       build_fields_for_page Scenarios.country_env 49 Scenarios.country_fields Core = Ok blocks l ->
       (List.length blocks <= Z.to_nat 49)%nat /\ blocks <> [].
Proof.
  assert (H1 : 1 <= 49) by lia.
  split; [exact H1|]. intros blocks l Hb.
  generalize (build_fields_for_page_shape Scenarios.country_env 49 Scenarios.country_fields
                Core H1).
  rewrite Hb. intros [Hlen Hnil]. split; [exact Hlen|].
  intro H. apply Hnil in H as [fid [f [m [Hc _]]]]. discriminate.
Defined.

Lemma compute_pages_pages_nonempty_witness :
  compute_pages Scenarios.country_env Scenarios.country_form Scenarios.country_fields []
  = Ok [FieldPage 1; Core; Terminal] []
  /\ 1 <= 49
  /\ exists blocks l,
       build_fields_for_page Scenarios.country_env 49 Scenarios.country_fields (FieldPage 1)
       = Ok blocks l /\ blocks <> [].
Proof.
  assert (H1 : compute_pages Scenarios.country_env Scenarios.country_form
                 Scenarios.country_fields [] = Ok [FieldPage 1; Core; Terminal] [])
    by (vm_compute; reflexivity).
  split; [exact H1|]. split; [lia|].
  apply (compute_pages_pages_nonempty _ _ _ _ _ _ 49 H1); [lia | left; reflexivity].
Defined.

Lemma build_wizard_page_modal_controls_witness :
  exists v logs,
    build_wizard_page_modal Scenarios.country_env 49 Scenarios.country_form
      Scenarios.country_fields Scenarios.tok 5 [] = Ok v logs
    /\ v_meta_page_index v = 2 /\ v_submit v = Some (s "Create").
Proof.
  destruct (build_wizard_page_modal Scenarios.country_env 49 Scenarios.country_form
              Scenarios.country_fields Scenarios.tok 5 []) as [v logs|ex] eqn:H;
    [|vm_compute in H; discriminate].
  exists v, logs. split; [reflexivity|].
  destruct (build_wizard_page_modal_controls _ _ _ _ _ _ _ _ _ H)
    as [pages [l [Hp [Hq [_ [_ [_ [Hc _]]]]]]]].
  assert (Hp' : compute_pages Scenarios.country_env Scenarios.country_form
                  Scenarios.country_fields [] = Ok [FieldPage 1; Core; Terminal] [])
    by (vm_compute; reflexivity).
  rewrite Hp' in Hp. injection Hp as <- <-. cbn in Hq, Hc.
  split; [exact Hq | apply Hc; reflexivity].
Defined.

Lemma wizard_submit_session_lifecycle_witness :
  str_truthy Scenarios.tok = true
  /\ let '(res, store') :=
       wizard_submit Scenarios.country_env Scenarios.cfg0 Scenarios.post_42 Scenarios.notify_ok
         [(Scenarios.tok, Scenarios.c7_session)] (Some Scenarios.tok) (Some 7)
         Scenarios.c3_answers (Some (s "U1")) None in
     ticket_created res = true /\ lookup Scenarios.tok store' = None.
Proof.
  assert (H1 : str_truthy Scenarios.tok = true) by reflexivity.
  split; [exact H1|].
  generalize (wizard_submit_session_lifecycle Scenarios.country_env Scenarios.cfg0
                Scenarios.post_42 Scenarios.notify_ok [(Scenarios.tok, Scenarios.c7_session)]
                Scenarios.tok (Some 7) Scenarios.c3_answers (Some (s "U1")) None H1).
  destruct (wizard_submit _ _ _ _ _ _ _ _ _ _) as [res store'] eqn:Hw.
  intros [_ [Hdel _]].
  assert (Hc : ticket_created res = true)
    by (vm_compute in Hw; injection Hw as <- _; reflexivity).
  split; [exact Hc | exact (Hdel Hc)].
Defined.

Lemma modal_ticket_custom_fields_witness :
  exists t logs,
    modal_values_to_fd_ticket Scenarios.country_env Scenarios.cfg0 Scenarios.c3_answers
      (Some 7) None = Ok t logs
    /\ t_custom_fields t <> Some []
    /\ custom_from Scenarios.country_env Scenarios.c3_answers (s "region") (VStr (s "x")).
Proof.
  destruct (modal_values_to_fd_ticket Scenarios.country_env Scenarios.cfg0 Scenarios.c3_answers
              (Some 7) None) as [t logs|ex] eqn:H; [|vm_compute in H; discriminate].
  exists t, logs. split; [reflexivity|].
  destruct (modal_ticket_custom_fields _ _ _ _ _ _ _ H) as [Hne Hfrom].
  split; [exact Hne|]. apply Hfrom.
  vm_compute in H. injection H as <- _. cbn. right; left; reflexivity.
Defined.

Lemma get_sections_rescrapes_on_miss_witness :
  cache_get 999999 (scraped_sections Scenarios.scrape0) = None
  /\ ~ In 999999 (map fst Scenarios.found_country)
  /\ ~ In 999999 (map fst (@nil (Z * list csection)))
  /\ let '(r1, st1) := get_sections_svc None Scenarios.found_country 999999 Scenarios.scrape0 in
     let '(r2, st2) := get_sections_svc None [] 999999 st1 in
     r1 = [] /\ r2 = [] /\ scrape_count st2 = 2%nat.
Proof.
  assert (H1 : cache_get 999999 (scraped_sections Scenarios.scrape0) = None) by reflexivity.
  assert (H2 : ~ In 999999 (map fst Scenarios.found_country))
    by (cbn; intros [H|[]]; discriminate).
  assert (H3 : ~ In 999999 (map fst (@nil (Z * list csection)))) by (intros []).
  split; [exact H1|]. split; [exact H2|]. split; [exact H3|].
  exact (get_sections_rescrapes_on_miss _ _ _ _ H1 H2 H3).
Defined.
